(** * WIPO PatentScope crawler: validator, statistics, candidate listing,
      tiered extraction and the coordinator loop

    A shallow embedding of [wipo_crawler_v2-v2.py] (the tiered crawler),
    of the listing function of [wipo_crawler_v2-v3.py] and of the claim
    extractor of [wipo_crawler.py].

    Modelling conventions.
    - A Python [str] is a list of characters; a character is one of the
      first 256 code points (Rocq's [ascii]).  On these, [str.isspace],
      [str.strip], [str.lower] and the regular-expression classes [\s],
      [\d] behave as the functions of [Text] below.
    - The parsed document, the network, the renderer and the semantic
      extraction service are outside the program: their answers are fields
      of a [World] the functions read.
    - An exception is a constructor of the result type: Python's
      [WIPOExtractionError] is [Raise_extraction], any other [Exception]
      is [Raise_other].
    - Binary floating point is a rounding function on the rationals that is
      monotone and keeps the integers it is used on.
    - [int] of a string of digits raises [ValueError] above the
      interpreter's default limit of 4300 digits. *)

From Stdlib Require Import Ascii String ZArith QArith Qround Lia Bool Arith List Sorted.
Import ListNotations.

Set Implicit Arguments.

(* ================================================================== *)
(** ** Text: the string primitives the source uses *)
(* ================================================================== *)

Module Text.

Definition str := list ascii.

(** A source literal ['...']. *)
Definition lit (s : string) : str := list_ascii_of_string s.

Definition between (lo hi : nat) (c : ascii) : bool :=
  let n := nat_of_ascii c in (lo <=? n)%nat && (n <=? hi)%nat.

(** [str.isspace] on one character, which is also the class [\s]. *)
Definition isspace (c : ascii) : bool :=
  between 9 13 c || between 28 32 c
  || (nat_of_ascii c =? 133)%nat || (nat_of_ascii c =? 160)%nat.

(** The class [\d]. *)
Definition isdigit (c : ascii) : bool := between 48 57 c.

(** [str.lower] on one character. *)
Definition lower_char (c : ascii) : ascii :=
  if between 65 90 c
     || (between 192 222 c && negb (nat_of_ascii c =? 215)%nat)
  then ascii_of_nat (nat_of_ascii c + 32)
  else c.

Definition lower (s : str) : str := map lower_char s.

Fixpoint lstrip (s : str) : str :=
  match s with
  | c :: t => if isspace c then lstrip t else s
  | [] => []
  end.

Definition rstrip (s : str) : str := rev (lstrip (rev s)).

(** [s.strip()] *)
Definition strip (s : str) : str := rstrip (lstrip s).

Fixpoint eqb (a b : str) : bool :=
  match a, b with
  | [], [] => true
  | x :: a', y :: b' => Ascii.eqb x y && eqb a' b'
  | _, _ => false
  end.

(** [s.startswith(p)] *)
Fixpoint startswith (s p : str) {struct p} : bool :=
  match p, s with
  | [], _ => true
  | y :: p', x :: s' => Ascii.eqb x y && startswith s' p'
  | _ :: _, [] => false
  end.

(** [x in l] for a list of strings. *)
Definition str_in (x : str) (l : list str) : bool := existsb (eqb x) l.

(** Python truthiness of a string: [not s] is [negb (truthy s)]. *)
Definition truthy (s : str) : bool :=
  match s with [] => false | _ :: _ => true end.

(** [re.search]: the leftmost position at which the pattern [m] matches,
    the empty suffix included. *)
Fixpoint re_search (m : str -> bool) (s : str) : bool :=
  match s with
  | [] => m []
  | _ :: t => m s || re_search m t
  end.

(** [re.search] for a pattern with a result (the matched text or a group). *)
Fixpoint re_find (m : str -> option str) (s : str) : option str :=
  match s with
  | [] => m []
  | _ :: t => match m s with Some r => Some r | None => re_find m t end
  end.

(** [re.sub(cls, '', s)] for a one-character class [cls]. *)
Definition re_delete (cls : ascii -> bool) (s : str) : str :=
  filter (fun c => negb (cls c)) s.

(** The longest prefix of characters of a class, and what follows it. *)
Fixpoint span (cls : ascii -> bool) (s : str) : str * str :=
  match s with
  | c :: t => if cls c then let (a, b) := span cls t in (c :: a, b) else ([], s)
  | [] => ([], [])
  end.

End Text.

Import Text.

(* ================================================================== *)
(** ** Validator: [looks_wrong] *)
(* ================================================================== *)

Module Validator.

Definition invalid_patterns : list str :=
  map lit ["close"; "reset"; "click"; "button"; "submit";
           "search"; "menu"; "nav"; "header"; "footer";
           "green inventory"; "loading"; "please wait"]%string.

(** The pattern [[A-H]\d{2}[A-Z]] tried at the head of [s]. *)
Definition ipc_pattern_at (s : str) : bool :=
  match s with
  | a :: b :: c :: d :: _ =>
      between 65 72 a && isdigit b && isdigit c && between 65 90 d
  | _ => false
  end.

Definition looks_wrong (value field_type : str) : bool :=
  if negb (truthy value) || negb (truthy (strip value)) then true
  else
    let value := strip value in
    if str_in (lower value) invalid_patterns then true
    else if eqb field_type (lit "title") then
      if (length value <? 10)%nat then true
      else if existsb (startswith (lower value))
                (map lit ["click"; "close"; "open"; "select"]%string)
      then true else false
    else if eqb field_type (lit "ipc") then
      if negb (re_search ipc_pattern_at value) then true else false
    else if eqb field_type (lit "publication_number") then
      if negb (startswith value (lit "WO")) then true else false
    else if eqb field_type (lit "applicants") then
      if (length value <? 3)%nat then true else false
    else false.

End Validator.

Import Validator.

(* ================================================================== *)
(** ** Floating point *)
(* ================================================================== *)

(** Binary floating point, as far as the program uses it: an operation
    returns the rounding of its exact result; rounding is monotone and
    leaves the integers up to 2^53 alone.  Overflow is not modelled. *)
Record Rounding : Type := {
  rnd : Q -> Q;
  rnd_le : forall x y : Q, x <= y -> rnd x <= rnd y;
  rnd_Z : forall z : Z, (Z.abs z <= 2 ^ 53)%Z -> rnd (inject_Z z) == inject_Z z
}.

(** [a / b] on two Python ints with [b] not zero. *)
Definition int_truediv (R : Rounding) (a b : Z) : Q :=
  rnd R (inject_Z a / inject_Z b).

(** [x * k] for a float [x] and an int [k]. *)
Definition float_mul_int (R : Rounding) (x : Q) (k : Z) : Q :=
  rnd R (x * inject_Z k).

(** [int(x)]: truncation towards zero. *)
Definition int_of_float (x : Q) : Z :=
  if Qle_bool 0 x then Qfloor x else Qceiling x.

(* ================================================================== *)
(** ** Statistics: [WIPOStats] *)
(* ================================================================== *)

Module Stats.

Record WIPOStats : Type := {
  static_success : Z;
  direct_success : Z;
  interactive_success : Z;
  failures : Z
}.

Definition init : WIPOStats :=
  {| static_success := 0; direct_success := 0;
     interactive_success := 0; failures := 0 |}.

Definition total (s : WIPOStats) : Z :=
  (static_success s + direct_success s + interactive_success s + failures s)%Z.

Definition success_rate (R : Rounding) (s : WIPOStats) : Q :=
  if (total s =? 0)%Z then 0
  else float_mul_int R (int_truediv R (total s - failures s) (total s)) 100.

Definition bump_static (s : WIPOStats) : WIPOStats :=
  {| static_success := static_success s + 1;
     direct_success := direct_success s;
     interactive_success := interactive_success s;
     failures := failures s |}.

Definition bump_direct (s : WIPOStats) : WIPOStats :=
  {| static_success := static_success s;
     direct_success := direct_success s + 1;
     interactive_success := interactive_success s;
     failures := failures s |}.

Definition bump_failures (s : WIPOStats) : WIPOStats :=
  {| static_success := static_success s;
     direct_success := direct_success s;
     interactive_success := interactive_success s;
     failures := failures s + 1 |}.

End Stats.

Import Stats.

(* ================================================================== *)
(** ** Candidate listing *)
(* ================================================================== *)

Module Lister.

(** An element the selectors of the result listing return: its text and
    its [href] attribute, when it has one. *)
Record Element : Type := { get_text : str; href : option str }.

(** What the GET of the result listing gives: an exception, or a status
    code with the elements the selector chain finds in the body. *)
Inductive Listing : Type :=
| Listing_raises
| Listing_response (status_code : Z) (wo_elements : list Element).

(** The pattern [docId=(WO\d+)] tried at the head of [s]; the result is
    group 1. *)
Definition docid_at (s : str) : option str :=
  if startswith s (lit "docId=WO") then
    let (digits, _) := span isdigit (skipn 8 s) in
    if truthy digits then Some (lit "WO" ++ digits) else None
  else None.

(** The class [[/\s-]]. *)
Definition separator (c : ascii) : bool :=
  Ascii.eqb c "/"%char || isspace c || Ascii.eqb c "-"%char.

(** The body of the loop over [wo_elements] up to the test: [wo_clean]
    when it is appended, [None] when it is not. *)
Definition wo_candidate (elem : Element) : option str :=
  let wo_text := strip (get_text elem) in
  let wo_text :=
    match href elem with
    | Some h =>
        if negb (truthy wo_text) && truthy h then
          match re_find docid_at h with
          | Some g => g
          | None => wo_text
          end
        else wo_text
    | None => wo_text
    end in
  let wo_clean := re_delete separator wo_text in
  if truthy wo_clean && startswith wo_clean (lit "WO")
  then Some wo_clean
  else None.

(** One round of that loop: the list [wo_numbers] after [elem]. *)
Definition wo_step (wo_numbers : list str) (elem : Element) : list str :=
  match wo_candidate elem with
  | Some wo_clean => wo_numbers ++ [wo_clean]
  | None => wo_numbers
  end.

(** [list(dict.fromkeys(l))]: a dict keeps its keys in insertion order and
    a key that is already there keeps its place. *)
Definition dict_add (keys : list str) (k : str) : list str :=
  if str_in k keys then keys else keys ++ [k].

Definition fromkeys (l : list str) : list str := fold_left dict_add l [].

Definition _get_wo_list_httpx (response : Listing) : list str :=
  match response with
  | Listing_raises => []
  | Listing_response status_code wo_elements =>
      if negb (status_code =? 200)%Z then []
      else fromkeys (fold_left wo_step wo_elements [])
  end.

(** The slice [l[:n]] for a Python int [n]. *)
Definition slice_to (A : Type) (l : list A) (n : Z) : list A :=
  if (0 <=? n)%Z then firstn (Z.to_nat n) l
  else firstn (length l - Z.to_nat (- n)) l.

(** [search_wipo] of the third variant: from the [href]s of the anchors
    [a[href*='docId=WO']] of the listing to the identifiers; [None] stands
    for the exception of a failed request, which is not caught there. *)
Definition v3_step (wos : list str) (h : str) : list str :=
  match re_find docid_at h with
  | Some g => wos ++ [g]
  | None => wos
  end.

Definition v3_search_wipo (anchors : option (list str)) (limit : Z)
  : option (list str) :=
  match anchors with
  | None => None
  | Some hrefs => Some (slice_to (fromkeys (fold_left v3_step hrefs [])) limit)
  end.

End Lister.

Import Lister.

(* ================================================================== *)
(** ** Field extraction with the semantic fallback *)
(* ================================================================== *)

Module Biblio.

(** A fetched page: the raw markup, and what the structural extractors
    ([_extract_field_with_label], [_extract_list_field],
    [_extract_abstract]) find in its parse for each field. *)
Record Document : Type := {
  html : str;
  dom_title : str;
  dom_publication_number : str;
  dom_applicants : list str;
  dom_inventors : list str;
  dom_ipc : str;
  dom_cpc : str;
  dom_filing_date : str;
  dom_publication_date : str;
  dom_abstract : str
}.

(** The semantic extraction service: from the markup sample and the field
    name of the prompt to the content of the reply, [None] when the call
    raises. *)
Definition Groq : Type := str -> str -> option str.

Definition groq_extract_field (service : Groq) (html field_name : str)
  (groq_api_key : option str) : option str :=
  match groq_api_key with
  | None => None
  | Some key =>
      if negb (truthy key) then None
      else
        let html_sample := firstn 4000 html in
        match service html_sample field_name with
        | Some content => Some (strip content)
        | None => None
        end
  end.

Record biblio : Type := {
  title : str;
  publication_number : str;
  applicants : list str;
  inventors : list str;
  ipc_codes : str;
  cpc_codes : str;
  filing_date : str;
  publication_date : str;
  abstract : str
}.

(** Exactly [n] characters of the class [\d]. *)
Fixpoint digits_exactly (n : nat) (s : str) : option (str * str) :=
  match n with
  | O => Some ([], s)
  | S n' =>
      match s with
      | c :: t =>
          if isdigit c then
            match digits_exactly n' t with
            | Some (d, r) => Some (c :: d, r)
            | None => None
            end
          else None
      | [] => None
      end
  end.

(** [[/\s]?] at the head of [s]: what it takes and what is left. *)
Definition optional_sep (s : str) : str * str :=
  match s with
  | c :: t => if Ascii.eqb c "/"%char || isspace c then ([c], t) else ([], s)
  | [] => ([], [])
  end.

(** The pattern [WO[/\s]?\d{4}[/\s]?\d{6}] tried at the head of [s]; the
    result is the matched text. *)
Definition wo_pattern_at (s : str) : option str :=
  if startswith s (lit "WO") then
    let (sep1, r1) := optional_sep (skipn 2 s) in
    match digits_exactly 4 r1 with
    | Some (year, r2) =>
        let (sep2, r3) := optional_sep r2 in
        match digits_exactly 6 r3 with
        | Some (serial, _) => Some (lit "WO" ++ sep1 ++ year ++ sep2 ++ serial)
        | None => None
        end
    | None => None
    end
  else None.

(** [s.split(',')] *)
Fixpoint split_comma (s : str) : list str :=
  match s with
  | [] => [[]]
  | c :: t =>
      if Ascii.eqb c ","%char then [] :: split_comma t
      else
        match split_comma t with
        | w :: ws => (c :: w) :: ws
        | [] => [[c]]
        end
  end.

Definition remove_char (x : ascii) (s : str) : str :=
  filter (fun c => negb (Ascii.eqb c x)) s.

Definition _parse_biblio_robust (service : Groq) (groq_api_key : option str)
  (d : Document) : biblio :=
  (* title *)
  let title0 := dom_title d in
  let title1 :=
    if looks_wrong title0 (lit "title") then
      match groq_extract_field service (html d) (lit "patent title") groq_api_key with
      | Some groq_title =>
          if truthy groq_title && negb (looks_wrong groq_title (lit "title"))
          then groq_title else title0
      | None => title0
      end
    else title0 in
  (* publication number *)
  let pub0 := dom_publication_number d in
  let pub1 :=
    if looks_wrong pub0 (lit "publication_number") then
      match re_find wo_pattern_at (html d) with
      | Some g => remove_char " "%char (remove_char "/"%char g)
      | None => pub0
      end
    else pub0 in
  (* applicants *)
  let apps0 := dom_applicants d in
  let apps1 :=
    if match apps0 with
       | [] => true
       | [a] => looks_wrong a (lit "applicants")
       | _ => false
       end
    then
      match groq_extract_field service (html d)
              (lit "applicants (comma separated)") groq_api_key with
      | Some groq_apps =>
          if truthy groq_apps then map strip (split_comma groq_apps) else apps0
      | None => apps0
      end
    else apps0 in
  (* IPC *)
  let ipc0 := dom_ipc d in
  let ipc1 :=
    if looks_wrong ipc0 (lit "ipc") then
      match groq_extract_field service (html d)
              (lit "IPC classification codes") groq_api_key with
      | Some groq_ipc =>
          if truthy groq_ipc && negb (looks_wrong groq_ipc (lit "ipc"))
          then groq_ipc else ipc0
      | None => ipc0
      end
    else ipc0 in
  {| title := title1;
     publication_number := pub1;
     applicants := firstn 10 apps1;
     inventors := firstn 10 (dom_inventors d);
     ipc_codes := ipc1;
     cpc_codes := dom_cpc d;
     filing_date := dom_filing_date d;
     publication_date := dom_publication_date d;
     abstract := if truthy (dom_abstract d) then firstn 1000 (dom_abstract d) else [] |}.

End Biblio.

Import Biblio.

(* ================================================================== *)
(** ** Tiered extraction and the coordinator: [WIPOCrawlerV2] *)
(* ================================================================== *)

Module Crawler.

(** How a call ends: it returns, it raises [WIPOExtractionError], or it
    raises another [Exception]. *)
Inductive outcome (A : Type) : Type :=
| Return (a : A)
| Raise_extraction
| Raise_other.

Arguments Raise_extraction {A}.
Arguments Raise_other {A}.

Inductive ExtractionMethod : Type :=
| STATIC_HTTPX | DIRECT_PLAYWRIGHT | INTERACTIVE_PLAYWRIGHT | FAILED.

(** The dict [patent_data]. *)
Record patent : Type := {
  wo_number : str;
  source : str;
  extraction_method : ExtractionMethod;
  biblio_data : biblio
}.

(** What [httpx_client.get] of a detail page gives. *)
Inductive Response : Type :=
| Get_raises
| Get_response (status_code : Z) (doc : Document).

(** What the renderer gives for a detail page: [goto] or [content] raises,
    the wait for [div.ps-patent-detail] fails, or the page is there. *)
Inductive Rendering : Type :=
| Render_raises
| Render_no_container
| Render_page (doc : Document).

(** Everything outside the program, by query and by identifier. *)
Record World : Type := {
  listing : str -> Listing;
  http_get : str -> Response;
  render : str -> Rendering;
  groq : Groq
}.

(** The fields of the crawler object that the extraction reads. *)
Record Config : Type := {
  use_playwright : bool;
  groq_api_key : option str
}.

Inductive Message : Type :=
| Getting_WO_list
| Processing (idx total : Z).

(** The calls the run makes, in order (not in the source: the trace the
    temporal properties speak about). *)
Inductive Event : Type :=
| Tier_called (tier : nat) (wo : str)
| Callback_called (percent : Z) (message : Message).

(** The mutable state of the crawler object, and the trace. *)
Record State : Type := {
  stats : WIPOStats;
  trace : list Event
}.

Definition log (e : Event) (st : State) : State :=
  {| stats := stats st; trace := trace st ++ [e] |}.

Definition on_stats (f : WIPOStats -> WIPOStats) (st : State) : State :=
  {| stats := f (stats st); trace := trace st |}.

(** The validation both tiers end with. *)
Definition title_fails (b : biblio) : bool :=
  negb (truthy (title b)) || looks_wrong (title b) (lit "title").

Definition _extract_static_httpx (w : World) (c : Config) (wo : str)
  : outcome patent :=
  match http_get w wo with
  | Get_raises => Raise_other
  | Get_response status_code doc =>
      if negb (status_code =? 200)%Z then Raise_extraction
      else
        let b := _parse_biblio_robust (groq w) (groq_api_key c) doc in
        if title_fails b then Raise_extraction
        else Return {| wo_number := wo; source := lit "WIPO";
                       extraction_method := STATIC_HTTPX; biblio_data := b |}
  end.

Definition _extract_direct_playwright (w : World) (c : Config) (wo : str)
  : outcome patent :=
  match render w wo with
  | Render_raises => Raise_other
  | Render_no_container => Raise_extraction
  | Render_page doc =>
      let b := _parse_biblio_robust (groq w) (groq_api_key c) doc in
      if title_fails b then Raise_extraction
      else Return {| wo_number := wo; source := lit "WIPO";
                     extraction_method := DIRECT_PLAYWRIGHT; biblio_data := b |}
  end.

Definition _extract_patent_tiered (w : World) (c : Config) (wo : str)
  (st : State) : outcome patent * State :=
  (* Tier 1 *)
  let st := log (Tier_called 1 wo) st in
  match _extract_static_httpx w c wo with
  | Return data => (Return data, on_stats bump_static st)
  | Raise_other => (Raise_other, st)
  | Raise_extraction =>
      (* Tier 2 *)
      if use_playwright c then
        let st := log (Tier_called 2 wo) st in
        match _extract_direct_playwright w c wo with
        | Return data => (Return data, on_stats bump_direct st)
        | Raise_other => (Raise_other, st)
        | Raise_extraction => (Raise_extraction, st)
        end
      else (Raise_extraction, st)
  end.

(** The progress callback: whether the call with these arguments raises. *)
Definition Callback : Type := Z -> Message -> bool.

(** [5 + int((idx / total) * 90)]; [None] is the [ZeroDivisionError]. *)
Definition progress_of (R : Rounding) (idx total : Z) : option Z :=
  if (total =? 0)%Z then None
  else Some (5 + int_of_float (float_mul_int R (int_truediv R idx total) 90))%Z.

(** One round of the loop of [search_wipo]: the body of the [try] and its
    [except Exception] handler. *)
Definition process_one (R : Rounding) (w : World) (c : Config)
  (progress_callback : option Callback) (total idx : Z) (wo : str)
  (acc : list patent * State) : list patent * State :=
  let (patents_data, st) := acc in
  let reported : bool * State :=
    match progress_callback with
    | Some cb =>
        if (idx mod 5 =? 0)%Z then
          match progress_of R idx total with
          | None => (true, st)
          | Some progress =>
              let m := Processing idx total in
              (cb progress m, log (Callback_called progress m) st)
          end
        else (false, st)
    | None => (false, st)
    end in
  let (raised, st) := reported in
  if raised then (patents_data, on_stats bump_failures st)
  else
    match _extract_patent_tiered w c wo st with
    | (Return patent_data, st) => (patents_data ++ [patent_data], st)
    | (_, st) => (patents_data, on_stats bump_failures st)
    end.

(** The loop over [enumerate(wo_list[:max_results], 1)], from index [idx]. *)
Fixpoint process_from (R : Rounding) (w : World) (c : Config)
  (progress_callback : option Callback) (total idx : Z) (wos : list str)
  (acc : list patent * State) : list patent * State :=
  match wos with
  | [] => acc
  | wo :: rest =>
      process_from R w c progress_callback total (idx + 1) rest
        (process_one R w c progress_callback total idx wo acc)
  end.

Definition search_wipo (R : Rounding) (w : World) (c : Config) (st : State)
  (query : str) (max_results : Z) (progress_callback : option Callback)
  : outcome (list patent) * State :=
  let first : bool * State :=
    match progress_callback with
    | Some cb =>
        (cb 5%Z Getting_WO_list, log (Callback_called 5 Getting_WO_list) st)
    | None => (false, st)
    end in
  let (raised, st) := first in
  if raised then (Raise_other, st)
  else
    let wo_list := _get_wo_list_httpx (listing w query) in
    match wo_list with
    | [] => (Return [], st)
    | _ :: _ =>
        let total := Z.min (Z.of_nat (length wo_list)) max_results in
        let (patents_data, st) :=
          process_from R w c progress_callback total 1
            (slice_to wo_list max_results) ([], st) in
        (Return patents_data, st)
    end.

End Crawler.

Import Crawler.

(* ================================================================== *)
(** ** Claim extraction: [WIPOCrawler._extract_claims] *)
(* ================================================================== *)

Module Claims.

Inductive ClaimType : Type := independent | dependent.

Record claim : Type := {
  claim_number : Z;
  claim_type : ClaimType;
  claim_text : str
}.

(** The interpreter's limit on the digits of a decimal conversion,
    [sys.int_max_str_digits] at its default (CPython 3.11). *)
Definition int_max_str_digits : nat := 4300.

(** [int(s)] for a string of decimal digits; [None] is the [ValueError]
    the interpreter raises for a string of more digits than the limit,
    leading zeros counted. *)
Definition int_of_digits (s : str) : option Z :=
  if (int_max_str_digits <? length s)%nat then None
  else
    Some (fold_left (fun n c => (10 * n + (Z.of_nat (nat_of_ascii c) - 48))%Z)
            s 0%Z).

(** [re.match(r'^(\d+)\.\s*', text)]: group 1 and [text[match.end():]]. *)
Definition number_prefix (text : str) : option (str * str) :=
  let (digits, r) := span isdigit text in
  if truthy digits then
    match r with
    | c :: r' => if Ascii.eqb c "."%char then Some (digits, lstrip r') else None
    | [] => None
    end
  else None.

(** The pattern [claim\s+\d+] with [re.IGNORECASE] tried at the head of
    [s]. *)
Definition claim_ref_at (s : str) : bool :=
  eqb (lower (firstn 5 s)) (lit "claim")
  && let (ws, r) := span isspace (skipn 5 s) in
     truthy ws && match r with c :: _ => isdigit c | [] => false end.

(** One round of the loop over the [.claim] elements; [None] is an element
    whose [inner_text] raises.  An exception in the body, that of [int]
    included, is caught by the bare [except] and the element passed
    over. *)
Definition claim_step (claims : list claim) (elem : option str) : list claim :=
  match elem with
  | None => claims
  | Some text =>
      match number_prefix text with
      | Some (digits, rest) =>
          match int_of_digits digits with
          | Some claim_num =>
              let text' := strip rest in
              let is_dependent := re_search claim_ref_at text' in
              claims ++ [{| claim_number := claim_num;
                            claim_type :=
                              if is_dependent then dependent else independent;
                            claim_text := text' |}]
          | None => claims
          end
      | None => claims
      end
  end.

(** [claim_elements] is [None] when the query for the elements raises. *)
Definition _extract_claims (claim_elements : option (list (option str)))
  : list claim :=
  match claim_elements with
  | None => []
  | Some elems => fold_left claim_step elems []
  end.

End Claims.

Import Claims.

(* ================================================================== *)
(** ** The loop of the first crawler: [WIPOCrawler.search_wipo] *)
(* ================================================================== *)

Module V1.

Inductive Message : Type :=
| Found (n : Z)
| Processing_WO (idx total : Z).

Definition Callback : Type := Z -> Message -> bool.

(** The session of one search: whether the navigation to the result page
    raises, the numbers [_extract_wo_numbers] finds there, and what
    [_extract_patent_data] returns for a number ([None] when it fails; it
    catches its own exceptions).  [A] is the type of the dict it builds. *)
Record World (A : Type) : Type := {
  goto_raises : bool;
  wo_numbers : list str;
  patent_data : str -> option A
}.

(** [5 + int((idx / total) * 15)]; [None] is the [ZeroDivisionError]. *)
Definition progress_of (R : Rounding) (idx total : Z) : option Z :=
  if (total =? 0)%Z then None
  else Some (5 + int_of_float (float_mul_int R (int_truediv R idx total) 15))%Z.

(** One round of the loop: the body of the [try] and its handler, which
    goes on with the next number.  The second component is the list of the
    calls of the callback so far (not in the source). *)
Definition process_one (A : Type) (R : Rounding) (w : World A)
  (progress_callback : option Callback) (total idx : Z) (wo_number : str)
  (acc : list A * list (Z * Message)) : list A * list (Z * Message) :=
  let (patents_data, calls) := acc in
  let reported : bool * list (Z * Message) :=
    match progress_callback with
    | Some cb =>
        if (idx mod 10 =? 0)%Z then
          match progress_of R idx total with
          | None => (true, calls)
          | Some progress =>
              let m := Processing_WO idx total in
              (cb progress m, calls ++ [(progress, m)])
          end
        else (false, calls)
    | None => (false, calls)
    end in
  let (raised, calls) := reported in
  if raised then (patents_data, calls)
  else
    match patent_data w wo_number with
    | Some d => (patents_data ++ [d], calls)
    | None => (patents_data, calls)
    end.

Fixpoint process_from (A : Type) (R : Rounding) (w : World A)
  (progress_callback : option Callback) (total idx : Z) (wos : list str)
  (acc : list A * list (Z * Message)) : list A * list (Z * Message) :=
  match wos with
  | [] => acc
  | wo :: rest =>
      process_from R w progress_callback total (idx + 1) rest
        (process_one R w progress_callback total idx wo acc)
  end.

(** The call never raises: the outer handler returns the empty list. *)
Definition search_wipo (A : Type) (R : Rounding) (w : World A)
  (max_results : Z) (progress_callback : option Callback)
  : list A * list (Z * Message) :=
  if goto_raises w then ([], [])
  else
    let n := Z.of_nat (length (wo_numbers w)) in
    let first : bool * list (Z * Message) :=
      match progress_callback with
      | Some cb => (cb 5%Z (Found n), [(5%Z, Found n)])
      | None => (false, [])
      end in
    let (raised, calls) := first in
    if raised then ([], calls)
    else
      process_from R w progress_callback n 1
        (slice_to (wo_numbers w) max_results) ([], calls).

(** The progress reports of a loop over [wos] that starts at index [idx]:
    one at every index that is a multiple of 10. *)
Fixpoint reports_from (R : Rounding) (total idx : Z) (wos : list str)
  : list (Z * Message) :=
  match wos with
  | [] => []
  | _ :: rest =>
      (if (idx mod 10 =? 0)%Z then
         match progress_of R idx total with
         | Some p => [(p, Processing_WO idx total)]
         | None => []
         end
       else [])
      ++ reports_from R total (idx + 1) rest
  end.

(** Whether the round at [idx] ends with an exception of the report. *)
Definition round_raised (R : Rounding) (cb : option Callback) (total idx : Z)
  : bool :=
  match cb with
  | Some f =>
      if (idx mod 10 =? 0)%Z then
        match progress_of R idx total with
        | Some p => f p (Processing_WO idx total)
        | None => true
        end
      else false
  | None => false
  end.

End V1.

(* ================================================================== *)
(** ** The properties, in the words of the specification *)
(* ================================================================== *)

Module Spec.

(** The success ratio as the specification writes it:
    (attempts - failures) / attempts. *)
Definition success_ratio (s : WIPOStats) : Q :=
  inject_Z (total s - failures s) / inject_Z (total s).

(** A letter of the basic alphabet, either case. *)
Definition isletter (c : ascii) : bool := between 65 90 c || between 97 122 c.

(** The shape letter + two digits + letter somewhere in [s]. *)
Definition has_shape (s : str) : Prop :=
  exists pre a b c d post,
    s = pre ++ a :: b :: c :: d :: post
    /\ isletter a = true /\ isdigit b = true /\ isdigit c = true
    /\ isletter d = true.

(** The shape the code looks for: a capital A to H, two digits and a
    capital letter, somewhere in [s]. *)
Definition has_ipc_shape (s : str) : Prop :=
  exists pre a b c d post,
    s = pre ++ a :: b :: c :: d :: post
    /\ between 65 72 a = true /\ isdigit b = true /\ isdigit c = true
    /\ between 65 90 d = true.

(** Deduplication that keeps the first occurrence of every entry. *)
Fixpoint first_occurrences (l : list str) : list str :=
  match l with
  | [] => []
  | x :: t => x :: filter (fun y => negb (eqb y x)) (first_occurrences t)
  end.

Definition option_list (A : Type) (o : option A) : list A :=
  match o with Some a => [a] | None => [] end.

(** The identifier tokens of a result listing, in the order of the
    listing, repetitions included. *)
Definition listed (response : Listing) : list str :=
  match response with
  | Listing_raises => []
  | Listing_response status_code wo_elements =>
      if (status_code =? 200)%Z
      then flat_map (fun e => option_list (wo_candidate e)) wo_elements
      else []
  end.

Definition v3_listed (hrefs : list str) : list str :=
  flat_map (fun h => option_list (re_find docid_at h)) hrefs.

(** A normalized identifier: no separator in it, and the prefix [WO]. *)
Definition normalized (id : str) : Prop :=
  (forall c, In c id -> separator c = false) /\ startswith id (lit "WO") = true.

(** [text] is a number [digits], a period and [rest]. *)
Definition numbered (text digits rest : str) : Prop :=
  text = digits ++ "."%char :: rest
  /\ digits <> [] /\ Forall (fun c => isdigit c = true) digits.

(** The digit a character shows. *)
Definition digit_value (c : ascii) : Z :=
  match c with
  | "1"%char => 1%Z | "2"%char => 2%Z | "3"%char => 3%Z
  | "4"%char => 4%Z | "5"%char => 5%Z | "6"%char => 6%Z
  | "7"%char => 7%Z | "8"%char => 8%Z | "9"%char => 9%Z
  | _ => 0%Z
  end.

(** The number a string of digits writes in base ten: every digit counts
    for a power of ten, by its place from the right. *)
Fixpoint decimal (ds : str) : Z :=
  match ds with
  | [] => 0%Z
  | c :: t => (digit_value c * 10 ^ Z.of_nat (length t) + decimal t)%Z
  end.

(** [s] has the word claim, in any case, then white space, then a number. *)
Definition refers_to_claim (s : str) : Prop :=
  exists pre w ws ds post,
    s = pre ++ w ++ ws ++ ds ++ post
    /\ lower w = lit "claim"
    /\ ws <> [] /\ Forall (fun c => isspace c = true) ws
    /\ ds <> [] /\ Forall (fun c => isdigit c = true) ds.

(** The tiers a trace records for one identifier, in order. *)
Fixpoint tiers_of (wo : str) (tr : list Event) : list nat :=
  match tr with
  | [] => []
  | Tier_called t wo' :: r =>
      if eqb wo' wo then t :: tiers_of wo r else tiers_of wo r
  | Callback_called _ _ :: r => tiers_of wo r
  end.

(** The callback invocations a trace records, in order. *)
Fixpoint callbacks_of (tr : list Event) : list (Z * Message) :=
  match tr with
  | [] => []
  | Callback_called p m :: r => (p, m) :: callbacks_of r
  | Tier_called _ _ :: r => callbacks_of r
  end.

(** The attempt of one tier. *)
Definition attempt (w : World) (c : Config) (tier : nat) (wo : str)
  : outcome patent :=
  match tier with
  | 1%nat => _extract_static_httpx w c wo
  | 2%nat => _extract_direct_playwright w c wo
  | _ => Raise_extraction
  end.

(** The result of the tiered extraction of one identifier; it does not
    depend on the state. *)
Definition tiered_result (w : World) (c : Config) (wo : str) : outcome patent :=
  fst (_extract_patent_tiered w c wo {| stats := Stats.init; trace := [] |}).

(** Floating point without rounding error. *)
Definition exact : Rounding :=
  {| rnd := fun x => x;
     rnd_le := fun x y H => H;
     rnd_Z := fun z _ => Qeq_refl (inject_Z z) |}.

(** The tiers the extraction of one identifier goes through. *)
Definition tiers_run (w : World) (c : Config) (wo : str) : list nat :=
  match _extract_static_httpx w c wo with
  | Raise_extraction => if use_playwright c then [1; 2]%nat else [1%nat]
  | _ => [1%nat]
  end.

(** The statistics after the tiered extraction of one identifier. *)
Definition tiered_stats (w : World) (c : Config) (wo : str) (s : WIPOStats)
  : WIPOStats :=
  stats (snd (_extract_patent_tiered w c wo {| stats := s; trace := [] |})).

(** The records a call returns; none when it raises. *)
Definition emitted (r : outcome (list patent) * State) : list patent :=
  match fst r with Return l => l | _ => [] end.

(** The page a record was extracted from. *)
Definition fetched (w : World) (p : patent) (doc : Document) : Prop :=
  (extraction_method p = STATIC_HTTPX
   /\ http_get w (wo_number p) = Get_response 200 doc)
  \/ (extraction_method p = DIRECT_PLAYWRIGHT
      /\ render w (wo_number p) = Render_page doc).

(** The first call of the callback, before the listing, does not raise. *)
Definition first_call_ok (cb : option Callback) : bool :=
  match cb with
  | Some f => negb (f 5%Z Getting_WO_list)
  | None => true
  end.

(** The progress reports of a loop over [wos] that starts at index [idx]:
    one at every index that is a multiple of 5. *)
Fixpoint reports_from (R : Rounding) (total idx : Z) (wos : list str)
  : list (Z * Message) :=
  match wos with
  | [] => []
  | _ :: rest =>
      (if (idx mod 5 =? 0)%Z then
         match progress_of R idx total with
         | Some p => [(p, Processing idx total)]
         | None => []
         end
       else [])
      ++ reports_from R total (idx + 1) rest
  end.

Definition percent_in_range (M : Type) (r : Z * M) : Prop :=
  (0 <= fst r <= 100)%Z.

Arguments percent_in_range {M} r.

(** What one round of the loop adds to the trace before the extraction,
    and whether the round ends there with an exception (the callback
    raises, or the percentage cannot be computed). *)
Definition round_calls (R : Rounding) (cb : option Callback) (total idx : Z)
  : list Event :=
  match cb with
  | Some _ =>
      if (idx mod 5 =? 0)%Z then
        match progress_of R idx total with
        | Some p => [Callback_called p (Processing idx total)]
        | None => []
        end
      else []
  | None => []
  end.

Definition round_raised (R : Rounding) (cb : option Callback) (total idx : Z)
  : bool :=
  match cb with
  | Some f =>
      if (idx mod 5 =? 0)%Z then
        match progress_of R idx total with
        | Some p => f p (Processing idx total)
        | None => true
        end
      else false
  | None => false
  end.

(** The state after the first call of the callback. *)
Definition started (cb : option Callback) (st : State) : State :=
  match cb with
  | Some _ => log (Callback_called 5 Getting_WO_list) st
  | None => st
  end.

(** The identifiers a call of [search_wipo] iterates over, and the total
    it reports. *)
Definition candidates (w : World) (query : str) (max_results : Z) : list str :=
  slice_to (_get_wo_list_httpx (listing w query)) max_results.

Definition reported_total (w : World) (query : str) (max_results : Z) : Z :=
  Z.min (Z.of_nat (length (_get_wo_list_httpx (listing w query)))) max_results.

End Spec.

Import Spec.

(* ================================================================== *)
(** ** Concrete pages, services and worlds *)
(* ================================================================== *)

Module Scenario.

Definition page (t : str) : Document :=
  {| html := []; dom_title := t; dom_publication_number := [];
     dom_applicants := []; dom_inventors := []; dom_ipc := []; dom_cpc := [];
     dom_filing_date := []; dom_publication_date := []; dom_abstract := [] |}.

(** A service that answers [x] when asked for the applicants. *)
Definition groq_x : Groq :=
  fun _ field_name =>
    if eqb field_name (lit "applicants (comma separated)")
    then Some (lit "x") else None.

Definition silent : Groq := fun _ _ => None.

Definition element (t : string) : Element :=
  {| get_text := lit t; href := None |}.

(** A listing of five identifiers, each with a page that has a title. *)
Definition five : World :=
  {| listing := fun _ =>
       Listing_response 200
         (map element ["WO/2022/000001"; "WO/2022/000002"; "WO/2022/000003";
                       "WO/2022/000004"; "WO/2022/000005"]%string);
     http_get := fun _ => Get_response 200 (page (lit "Crystalline forms of a compound"));
     render := fun _ => Render_raises;
     groq := silent |}.

(** A listing of two identifiers; the page of the first has the title
    [Click], the page of the second has a title. *)
Definition two : World :=
  {| listing := fun _ =>
       Listing_response 200
         (map element ["WO/2022/049075"; "WO/2019/028689"]%string);
     http_get := fun wo =>
       if eqb wo (lit "WO2022049075") then Get_response 200 (page (lit "Click"))
       else Get_response 200 (page (lit "Crystalline forms of a compound"));
     render := fun _ => Render_no_container;
     groq := silent |}.

Definition crawler : Config :=
  {| use_playwright := true; groq_api_key := None |}.

Definition fresh : State := {| stats := Stats.init; trace := [] |}.

Definition query : str := lit "darolutamide".

(** A callback that never raises, one that raises at its first call and
    one that raises when it is told 95 percent. *)
Definition quiet : Callback := fun _ _ => false.
Definition raises_at_once : Callback := fun _ _ => true.
Definition raises_at_95 : Callback := fun p _ => (p =? 95)%Z.

(** The record of the second identifier of [two]. *)
Definition second_record : patent :=
  {| wo_number := lit "WO2019028689"; source := lit "WIPO";
     extraction_method := STATIC_HTTPX;
     biblio_data :=
       _parse_biblio_robust silent None (page (lit "Crystalline forms of a compound")) |}.

End Scenario.

(* ================================================================== *)
(** ** The query and the integration function: [search_wipo_patents] *)
(* ================================================================== *)

Module Pipeline.

(** [sep.join(parts)] *)
Fixpoint join (sep : str) (parts : list str) : str :=
  match parts with
  | [] => []
  | p :: rest =>
      match rest with
      | [] => p
      | _ :: _ => p ++ sep ++ join sep rest
      end
  end.

(** The list [query_parts]; [None] is the default of an argument. *)
Definition query_parts (molecule : str) (dev_codes : option (list str))
  (cas : option str) : list str :=
  let parts := [molecule] in
  let parts :=
    match dev_codes with
    | Some codes =>
        match codes with
        | _ :: _ => parts ++ firstn 5 codes
        | [] => parts
        end
    | None => parts
    end in
  match cas with
  | Some c => if truthy c then parts ++ [c] else parts
  | None => parts
  end.

Definition build_query (molecule : str) (dev_codes : option (list str))
  (cas : option str) : str :=
  join (lit " OR ") (query_parts molecule dev_codes cas).

(** [search_wipo_patents] of the tiered crawler: a new crawler with the
    renderer on and fresh statistics runs one search. *)
Definition search_wipo_patents (R : Rounding) (w : World) (molecule : str)
  (dev_codes : option (list str)) (cas : option str) (max_results : Z)
  (groq_api_key : option str) (progress_callback : option Callback)
  : outcome (list patent) * State :=
  search_wipo R w
    {| use_playwright := true; groq_api_key := groq_api_key |}
    {| stats := Stats.init; trace := [] |}
    (build_query molecule dev_codes cas) max_results progress_callback.

(** The record of the third variant; [B] is the type of the dict
    [parse_biblio] builds. *)
Record v3_patent (B : Type) : Type := {
  v3_wo_number : str;
  v3_source : str;
  v3_biblio_data : B
}.

(** One round of the loop of the third variant's [search_wipo_patents]:
    [detail wo] is what [fetch_detail_html] and [parse_biblio] give, [None]
    when either raises.  The state is the list [results] and the counters
    [success] and [failures] the function logs. *)
Definition v3_round (B : Type) (detail : str -> option B)
  (acc : list (v3_patent B) * Z * Z) (wo : str) : list (v3_patent B) * Z * Z :=
  let '(results, success, failures) := acc in
  match detail wo with
  | Some biblio =>
      (results ++ [{| v3_wo_number := wo; v3_source := lit "WIPO";
                      v3_biblio_data := biblio |}],
       (success + 1)%Z, failures)
  | None => (results, success, (failures + 1)%Z)
  end.

(** The third variant's [search_wipo_patents]; [None] is the exception of
    a failed listing request, which nothing catches. *)
Definition v3_search_wipo_patents (B : Type) (anchors : option (list str))
  (detail : str -> option B) (max_results : Z)
  : option (list (v3_patent B) * Z * Z) :=
  match v3_search_wipo anchors max_results with
  | None => None
  | Some wos => Some (fold_left (v3_round detail) wos ([], 0%Z, 0%Z))
  end.

End Pipeline.

Import Pipeline.

(* ================================================================== *)
(** ** Structural extraction of list fields and of the abstract *)
(* ================================================================== *)

Module Fields.

(** [needle in hay] *)
Definition contains (needle hay : str) : bool :=
  re_search (fun s => startswith s needle) hay.

Definition ui_words : list str :=
  map lit ["close"; "click"; "reset"; "button"]%string.

(** The test of the loop over [parent.descendants] on one text node: the
    text that is appended, or [None]. *)
Definition list_item (label_text elem : str) : option str :=
  let text := strip elem in
  if truthy text && negb (eqb (lower text) (lower label_text))
     && (2 <? length text)%nat
  then
    if negb (existsb (fun ui => contains ui (lower text)) ui_words)
    then Some text else None
  else None.

Definition item_step (label_text : str) (items : list str) (elem : str)
  : list str :=
  match list_item label_text elem with
  | Some text => items ++ [text]
  | None => items
  end.

(** The loop with the set [seen]: [unique_items] holds what [seen] holds,
    in the order of arrival. *)
Definition unique_step (unique_items : list str) (item : str) : list str :=
  if str_in item unique_items then unique_items else unique_items ++ [item].

(** The entries of one section: the loop over the text nodes, then the
    loop that drops repetitions. *)
Definition section_items (label_text : str) (descendants : list str)
  : list str :=
  let items := fold_left (item_step label_text) descendants [] in
  fold_left unique_step items [].

(** [_extract_list_field]: [find_section label] is the list of the text
    nodes under the container of the first text that matches the label,
    [None] when there is no such text or no container. *)
Fixpoint _extract_list_field (find_section : str -> option (list str))
  (labels : list str) : list str :=
  match labels with
  | [] => []
  | label_text :: rest =>
      match find_section label_text with
      | Some descendants =>
          match section_items label_text descendants with
          | [] => _extract_list_field find_section rest
          | unique_items => unique_items
          end
      | None => _extract_list_field find_section rest
      end
  end.

(** [re.sub(r'^abstract:?\s*', '', text, flags=re.I)] *)
Definition remove_abstract_label (text : str) : str :=
  if eqb (lower (firstn 8 text)) (lit "abstract") then
    let r := skipn 8 text in
    let r :=
      match r with
      | c :: t => if Ascii.eqb c ":"%char then t else r
      | [] => []
      end in
    lstrip r
  else text.

(** [_extract_abstract]: [abstract_elem] is the text of the first element
    whose class matches, [None] when there is none. *)
Definition _extract_abstract (abstract_elem : option str) : str :=
  match abstract_elem with
  | Some text => remove_abstract_label text
  | None => []
  end.

End Fields.

Import Fields.

(* ================================================================== *)
(** ** The first crawler: result numbers and the English segment *)
(* ================================================================== *)

Module V1Fields.

(** One round of the loop of [_extract_wo_numbers]; [None] is an element
    without text. *)
Definition wo_number_step (wo_numbers : list str) (text : option str)
  : list str :=
  match text with
  | Some t =>
      if truthy t && contains (lit "WO") t
      then wo_numbers ++ [strip (remove_char "/"%char t)]
      else wo_numbers
  | None => wo_numbers
  end.

(** [_extract_wo_numbers]: [None] when the wait or the query raises. *)
Definition _extract_wo_numbers (wo_elements : option (list (option str)))
  : list str :=
  match wo_elements with
  | None => []
  | Some elems => fold_left wo_number_step elems []
  end.

(** [(.+?)(?:\(FR\)|$)] after its first character: the shortest run that
    is followed by [(FR)], by the end, or by a newline that ends the
    string. *)
Fixpoint lazy_until_fr (rest : str) : str :=
  match rest with
  | [] => []
  | c :: t =>
      if startswith rest (lit "(FR)") then []
      else if eqb rest [ascii_of_nat 10] then []
      else c :: lazy_until_fr t
  end.

(** The pattern [\(EN\)\s*(.+?)(?:\(FR\)|$)] with [re.DOTALL] tried at
    the head of [s]; the result is group 1. *)
Definition en_pattern_at (s : str) : option str :=
  if startswith s (lit "(EN)") then
    let after := skipn 4 s in
    match lstrip after with
    | c :: rest => Some (c :: lazy_until_fr rest)
    | [] =>
        match rev after with
        | c :: _ => Some [c]
        | [] => None
        end
    end
  else None.

(** The English segment of a bilingual block, as the title and the
    abstract are read: [None] when the pattern does not match. *)
Definition english_segment (block : str) : option str :=
  match re_find en_pattern_at block with
  | Some g => Some (strip g)
  | None => None
  end.

(** [_extract_description]: [desc_container] is the inner text of the
    container, [None] when there is no container or a call raises. *)
Definition _extract_description (desc_container : option str) : option str :=
  match desc_container with
  | Some full_text =>
      if truthy full_text then Some (firstn 5000 full_text) else None
  | None => None
  end.

(** An entry of [isr_data['citations']]. *)
Record citation : Type := {
  category : str;
  document : str
}.

(** One round of the loop of [_extract_isr] over the rows of the table:
    a row is the list of the inner texts of its cells, [None] for a row
    whose cells cannot be queried and for a cell whose text cannot be
    read; such a row is passed over, as is a row of fewer than two
    cells. *)
Definition isr_step (citations : list citation)
  (row : option (list (option str))) : list citation :=
  match row with
  | Some (Some cell0 :: Some cell1 :: _) =>
      citations ++ [{| category := strip cell0; document := strip cell1 |}]
  | _ => citations
  end.

(** [_extract_isr], the list under [citations] ([search_fields] stays
    [None]); [rows] is [None] when the query for the rows raises. *)
Definition _extract_isr (rows : option (list (option (list (option str)))))
  : list citation :=
  match rows with
  | None => []
  | Some rows => fold_left isr_step rows []
  end.

End V1Fields.

Import V1Fields.

(* ================================================================== *)
(** ** More properties, in words *)
(* ================================================================== *)

Module Props.

Definition all_space (s : str) : Prop := Forall (fun c => isspace c = true) s.

(** No white space at either end. *)
Definition trimmed (s : str) : Prop := strip s = s.

(** Whether the tiered extraction of an identifier returns a record. *)
Definition succeeds (w : World) (c : Config) (wo : str) : bool :=
  match tiered_result w c wo with Return _ => true | _ => false end.

(** The records of a list of identifiers, in its order. *)
Definition records_of (w : World) (c : Config) (wos : list str) : list patent :=
  flat_map (fun wo => match tiered_result w c wo with
                      | Return p => [p]
                      | _ => []
                      end) wos.

Definition by_method (m : ExtractionMethod) (p : patent) : bool :=
  match m, extraction_method p with
  | STATIC_HTTPX, STATIC_HTTPX => true
  | DIRECT_PLAYWRIGHT, DIRECT_PLAYWRIGHT => true
  | INTERACTIVE_PLAYWRIGHT, INTERACTIVE_PLAYWRIGHT => true
  | FAILED, FAILED => true
  | _, _ => false
  end.

(** Not empty, and no white space at its first and at its last place. *)
Definition clean_ends (s : str) : Prop :=
  match s with c :: _ => isspace c = false | [] => False end
  /\ match rev s with c :: _ => isspace c = false | [] => False end.

Definition no_paren (s : str) : Prop :=
  Forall (fun c => Ascii.eqb c "("%char = false) s.

(** What the loop of [_extract_list_field] lets through. *)
Definition list_entry (label_text elem text : str) : Prop :=
  text = strip elem
  /\ (3 <= length text)%nat
  /\ lower text <> lower label_text
  /\ (forall ui, In ui ui_words -> contains ui (lower text) = false).

(** Whether the parse asks the service for the applicants. *)
Definition applicants_suspect (d : Document) : bool :=
  match dom_applicants d with
  | [] => true
  | [a] => looks_wrong a (lit "applicants")
  | _ => false
  end.

Definition has_detail (B : Type) (detail : str -> option B) (wo : str) : bool :=
  match detail wo with Some _ => true | None => false end.

(** The four kinds the validator has a rule for. *)
Definition known_kinds : list str :=
  map lit ["title"; "ipc"; "publication_number"; "applicants"]%string.

End Props.

Import Props.

(* ================================================================== *)
(** * Theorems *)
(* ================================================================== *)

(** ** Text *)

Lemma eqb_eq (a b : str) : eqb a b = true <-> a = b.
Proof.
  revert b; induction a as [|x a IH]; intros [|y b]; simpl; split;
    try congruence; try reflexivity.
  - intros H. apply andb_true_iff in H as [H1 H2].
    apply Ascii.eqb_eq in H1. apply IH in H2. congruence.
  - intros H. injection H as -> ->.
    rewrite Ascii.eqb_refl. simpl. apply IH. reflexivity.
Qed.

Lemma eqb_refl (a : str) : eqb a a = true.
Proof. apply eqb_eq. reflexivity. Qed.

Lemma eqb_neq (a b : str) : eqb a b = false <-> a <> b.
Proof.
  split.
  - intros H E. apply eqb_eq in E. congruence.
  - intros H. destruct (eqb a b) eqn:E; [|reflexivity].
    apply eqb_eq in E. contradiction.
Qed.

Lemma str_in_In (x : str) (l : list str) : str_in x l = true <-> In x l.
Proof.
  unfold str_in. rewrite existsb_exists. split.
  - intros [y [Hy E]]. apply eqb_eq in E. subst. exact Hy.
  - intros H. exists x. split; [exact H | apply eqb_refl].
Qed.

Lemma startswith_app (s p : str) :
  startswith s p = true <-> exists r, s = p ++ r.
Proof.
  revert s; induction p as [|y p IH]; intros s; simpl.
  - split; [intros _; exists s; reflexivity | reflexivity].
  - destruct s as [|x s].
    + split; [discriminate | intros [r H]; discriminate].
    + rewrite andb_true_iff, Ascii.eqb_eq, IH. split.
      * intros [-> [r ->]]. exists r. reflexivity.
      * intros [r H]. injection H as -> ->. split; [reflexivity | exists r; reflexivity].
Qed.

Lemma truthy_nil (s : str) : truthy s = false <-> s = [].
Proof. destruct s; simpl; split; congruence. Qed.

Lemma re_search_spec (m : str -> bool) (s : str) :
  re_search m s = true <-> exists pre r, s = pre ++ r /\ m r = true.
Proof.
  induction s as [|c s IH]; simpl.
  - split.
    + intros H. exists [], []. auto.
    + intros [pre [r [E H]]]. symmetry in E. apply app_eq_nil in E as [-> ->]. exact H.
  - rewrite orb_true_iff, IH. split.
    + intros [H | [pre [r [-> H]]]].
      * exists [], (c :: s). auto.
      * exists (c :: pre), r. auto.
    + intros [[|x pre] [r [E H]]]; simpl in E.
      * left. subst r. exact H.
      * injection E as -> ->. right. exists pre, r. auto.
Qed.

(** ** Validator *)

Lemma strip_truthy (value : str) : truthy (strip value) = true -> truthy value = true.
Proof. destruct value; [discriminate | reflexivity]. Qed.

Lemma noise_lacks_prefix (s : str) :
  str_in (lower s) invalid_patterns = true -> startswith s (lit "WO") = false.
Proof.
  intros H. destruct (startswith s (lit "WO")) eqn:E; [|reflexivity].
  apply startswith_app in E as [r ->]. cbn in H. discriminate.
Qed.

Lemma ipc_pattern_at_spec (r : str) :
  ipc_pattern_at r = true <->
  exists a b c d post, r = a :: b :: c :: d :: post
    /\ between 65 72 a = true /\ isdigit b = true /\ isdigit c = true
    /\ between 65 90 d = true.
Proof.
  unfold ipc_pattern_at. split.
  - destruct r as [|a [|b [|c [|d post]]]]; try discriminate.
    rewrite !andb_true_iff. intros [[[Ha Hb] Hc] Hd].
    exists a, b, c, d, post. auto.
  - intros [a [b [c [d [post [-> [Ha [Hb [Hc Hd]]]]]]]]].
    rewrite Ha, Hb, Hc, Hd. reflexivity.
Qed.

Lemma search_ipc_shape (s : str) :
  re_search ipc_pattern_at s = true <-> has_ipc_shape s.
Proof.
  rewrite re_search_spec. unfold has_ipc_shape. split.
  - intros [pre [r [-> H]]]. apply ipc_pattern_at_spec in H.
    destruct H as [a [b [c [d [post [-> H]]]]]].
    exists pre, a, b, c, d, post. auto.
  - intros [pre [a [b [c [d [post [-> H]]]]]]].
    exists pre, (a :: b :: c :: d :: post). split; [reflexivity|].
    apply ipc_pattern_at_spec. exists a, b, c, d, post. auto.
Qed.

(** C7.  The validator is a function of (value, kind): two calls with the
    same arguments give the same result.  For the kind
    [publication_number] it reports a value wrong exactly when the value,
    trimmed as the validator trims every value, does not start with [WO];
    [WO2022049075] is not wrong and [XY123] is. *)
Theorem looks_wrong_publication_number :
  (forall value kind r1 r2,
      looks_wrong value kind = r1 -> looks_wrong value kind = r2 -> r1 = r2)
  /\ (forall value,
         looks_wrong value (lit "publication_number")
         = negb (startswith (strip value) (lit "WO")))
  /\ looks_wrong (lit "WO2022049075") (lit "publication_number") = false
  /\ looks_wrong (lit "XY123") (lit "publication_number") = true.
Proof.
  split; [intros value kind r1 r2 H1 H2; congruence|].
  split; [|split; reflexivity].
  intros value. unfold looks_wrong.
  destruct (truthy value) eqn:Tv.
  - destruct (truthy (strip value)) eqn:Ts; cbn [negb orb].
    + destruct (str_in (lower (strip value)) invalid_patterns) eqn:N.
      * rewrite (noise_lacks_prefix _ N). reflexivity.
      * assert (E1 : eqb (lit "publication_number") (lit "title") = false) by reflexivity.
        assert (E2 : eqb (lit "publication_number") (lit "ipc") = false) by reflexivity.
        rewrite E1, E2, eqb_refl.
        destruct (startswith (strip value) (lit "WO")); reflexivity.
    + apply truthy_nil in Ts. rewrite Ts. reflexivity.
  - apply truthy_nil in Tv. subst value. reflexivity.
Qed.

(** C8, as the code has it.  For a value that is neither empty nor noise:
    with the kind [ipc] the validator reports it wrong exactly when the
    trimmed value contains no capital A to H followed by two digits and a
    capital letter; with the kind [cpc] it has no rule of its own and
    reports the value not wrong. *)
Theorem classification_code_validation (value : str) :
  truthy (strip value) = true ->
  str_in (lower (strip value)) invalid_patterns = false ->
  (looks_wrong value (lit "ipc") = true <-> ~ has_ipc_shape (strip value))
  /\ looks_wrong value (lit "cpc") = false.
Proof.
  intros Ts N. unfold looks_wrong.
  rewrite (strip_truthy _ Ts), Ts, N. cbn [negb orb]. cbv iota zeta.
  assert (E1 : eqb (lit "ipc") (lit "title") = false) by reflexivity.
  assert (E2 : eqb (lit "cpc") (lit "title") = false) by reflexivity.
  assert (E3 : eqb (lit "cpc") (lit "ipc") = false) by reflexivity.
  assert (E4 : eqb (lit "cpc") (lit "publication_number") = false) by reflexivity.
  assert (E5 : eqb (lit "cpc") (lit "applicants") = false) by reflexivity.
  rewrite E1, E2, E3, E4, E5, eqb_refl. split; [|reflexivity].
  rewrite <- search_ipc_shape.
  destruct (re_search ipc_pattern_at (strip value)); simpl; split;
    congruence.
Qed.

Lemma classification_code_validation_witness :
  (looks_wrong (lit "A61K 9/14") (lit "ipc") = true
   <-> ~ has_ipc_shape (strip (lit "A61K 9/14")))
  /\ looks_wrong (lit "A61K 9/14") (lit "cpc") = false.
Proof.
  exact (classification_code_validation (lit "A61K 9/14") eq_refl eq_refl).
Defined.

Lemma no_shape_in_digits : ~ has_shape (lit "1234").
Proof.
  intros [pre [a [b [c [d [post [E [Ha _]]]]]]]].
  assert (In a (lit "1234")) as Hin.
  { rewrite E. apply in_or_app. right. left. reflexivity. }
  simpl in Hin.
  destruct Hin as [<-|[<-|[<-|[<-|[]]]]]; discriminate.
Qed.

(** C8 as stated fails: for the kind [cpc] the value [1234], which is
    neither empty nor noise and has no letter at all, is not reported
    wrong; for the kind [ipc] the value [K61K], which is a letter, two
    digits and a letter, is reported wrong. *)
Lemma classification_code_counterexample :
  (truthy (strip (lit "1234")) = true
   /\ str_in (lower (strip (lit "1234"))) invalid_patterns = false
   /\ ~ has_shape (lit "1234")
   /\ looks_wrong (lit "1234") (lit "cpc") = false)
  /\ (has_shape (lit "K61K") /\ looks_wrong (lit "K61K") (lit "ipc") = true).
Proof.
  repeat split; try reflexivity.
  - exact no_shape_in_digits.
  - exists [], "K"%char, "6"%char, "1"%char, "K"%char, [].
    repeat split; reflexivity.
Qed.

(** ** Floating point and statistics *)

Lemma rnd_compat (R : Rounding) (x y : Q) : x == y -> rnd R x == rnd R y.
Proof.
  intros E. apply Qle_antisym; apply rnd_le; rewrite E; apply Qle_refl.
Qed.

Lemma rnd_int (R : Rounding) (z : Z) (x : Q) :
  (Z.abs z <= 2 ^ 53)%Z -> x == inject_Z z -> rnd R x == inject_Z z.
Proof.
  intros Hz E. rewrite (rnd_compat R E). apply rnd_Z. exact Hz.
Qed.

Lemma rnd_between (R : Rounding) (lo hi : Z) (x : Q) :
  (Z.abs lo <= 2 ^ 53)%Z -> (Z.abs hi <= 2 ^ 53)%Z ->
  inject_Z lo <= x <= inject_Z hi ->
  inject_Z lo <= rnd R x <= inject_Z hi.
Proof.
  intros Hlo Hhi [H1 H2]. split.
  - rewrite <- (rnd_Z R lo Hlo). apply rnd_le. exact H1.
  - rewrite <- (rnd_Z R hi Hhi). apply rnd_le. exact H2.
Qed.

Lemma small_int (z : Z) : (-100 <= z <= 100)%Z -> (Z.abs z <= 2 ^ 53)%Z.
Proof.
  intros H. assert (100 <= 2 ^ 53)%Z by (vm_compute; discriminate). lia.
Qed.

(** A quotient of two ints with [0 <= a <= b] and [0 < b], times [k], lies
    between 0 and [k] after both roundings. *)
Lemma scaled_ratio_between (R : Rounding) (a b k : Z) :
  (0 <= a <= b)%Z -> (0 < b)%Z -> (0 <= k <= 100)%Z ->
  0 <= float_mul_int R (int_truediv R a b) k <= inject_Z k.
Proof.
  intros Ha Hb Hk. unfold float_mul_int, int_truediv.
  assert (Hq : inject_Z 0 <= rnd R (inject_Z a / inject_Z b) <= inject_Z 1).
  { apply rnd_between; try (apply small_int; lia).
    assert (0 < inject_Z b) by (change 0 with (inject_Z 0); rewrite <- Zlt_Qlt; lia).
    split.
    - apply Qle_shift_div_l; [assumption|].
      change (inject_Z 0) with 0. rewrite Qmult_0_l.
      change 0 with (inject_Z 0). rewrite <- Zle_Qle. lia.
    - apply Qle_shift_div_r; [assumption|].
      change (inject_Z 1) with 1. rewrite Qmult_1_l.
      rewrite <- Zle_Qle. lia. }
  change 0 with (inject_Z 0).
  apply rnd_between; try (apply small_int; lia).
  assert (0 <= inject_Z k) by (change 0 with (inject_Z 0); rewrite <- Zle_Qle; lia).
  destruct Hq as [Hq0 Hq1]. change (inject_Z 0) with 0 in *.
  change (inject_Z 1) with 1 in Hq1. split.
  - apply Qmult_le_0_compat; assumption.
  - rewrite <- (Qmult_1_l (inject_Z k)) at 2.
    apply Qmult_le_compat_r; assumption.
Qed.

Lemma two_static_successes (R : Rounding) :
  success_rate R (bump_static (bump_static Stats.init)) == 100.
Proof.
  unfold success_rate, float_mul_int, int_truediv. simpl.
  apply (@rnd_int R 100); [apply small_int; lia|].
  rewrite (@rnd_int R 1 (inject_Z 2 / inject_Z 2));
    [reflexivity | apply small_int; lia | reflexivity].
Qed.

(** C1, as the code has it.  [success_rate] is 0 when no attempt was
    recorded, and otherwise the ratio (attempts - failures) / attempts
    times 100, a percentage, each of the two operations rounded once
    (without rounding error it is exactly the ratio times 100); with
    counters that are not negative it lies between 0 and 100; after two
    tier-1 successes and nothing else it is 100. *)
Theorem success_rate_is_percentage (R : Rounding) (s : WIPOStats) :
  (total s = 0%Z -> success_rate R s == 0)
  /\ (total s <> 0%Z ->
      success_rate R s == rnd R (rnd R (success_ratio s) * 100))
  /\ (total s <> 0%Z -> success_rate exact s == success_ratio s * 100)
  /\ ((0 <= static_success s)%Z -> (0 <= direct_success s)%Z ->
      (0 <= interactive_success s)%Z -> (0 <= failures s)%Z ->
      0 <= success_rate R s <= 100)
  /\ success_rate R (bump_static (bump_static Stats.init)) == 100.
Proof.
  split; [|split; [|split; [|split]]].
  - intros H. unfold success_rate. rewrite H. reflexivity.
  - intros H. unfold success_rate. apply Z.eqb_neq in H. rewrite H. reflexivity.
  - intros H. unfold success_rate. apply Z.eqb_neq in H. rewrite H. reflexivity.
  - intros H1 H2 H3 H4. unfold success_rate.
    destruct (total s =? 0)%Z eqn:E.
    + split; apply Qle_bool_imp_le; reflexivity.
    + apply Z.eqb_neq in E. unfold total in *.
      apply (scaled_ratio_between R (k := 100)); lia.
  - apply two_static_successes.
Qed.

(** C1 as stated fails: after two tier-1 successes [success_rate] is 100
    and the ratio (attempts - failures) / attempts is 1. *)
Lemma success_rate_counterexample :
  (forall R, success_rate R (bump_static (bump_static Stats.init)) == 100)
  /\ success_ratio (bump_static (bump_static Stats.init)) == 1
  /\ (forall R, ~ success_rate R (bump_static (bump_static Stats.init))
                  == success_ratio (bump_static (bump_static Stats.init))).
Proof.
  assert (H : forall R, success_rate R (bump_static (bump_static Stats.init)) == 100).
  { exact two_static_successes. }
  split; [exact H|]. split; [reflexivity|].
  intros R E. rewrite (H R) in E. discriminate E.
Qed.

(** ** Candidate listing *)

Lemma filter_twice (A : Type) (f g : A -> bool) (l : list A) :
  filter f (filter g l) = filter (fun x => f x && g x) l.
Proof.
  induction l as [|x l IH]; simpl; [reflexivity|].
  destruct (g x); simpl; rewrite ?andb_true_r, ?andb_false_r;
    [destruct (f x)|]; rewrite IH; reflexivity.
Qed.

Lemma str_in_app (x : str) (a b : list str) :
  str_in x (a ++ b) = str_in x a || str_in x b.
Proof. unfold str_in. apply existsb_app. Qed.

(** The dict built key by key from [acc] holds [acc] and then the first
    occurrences of the new keys. *)
Lemma fold_dict_add (l acc : list str) :
  fold_left dict_add l acc
  = acc ++ filter (fun y => negb (str_in y acc)) (first_occurrences l).
Proof.
  revert acc; induction l as [|x l IH]; intros acc; simpl.
  - rewrite app_nil_r. reflexivity.
  - unfold dict_add at 2. destruct (str_in x acc) eqn:E; simpl.
    + rewrite IH, filter_twice. f_equal. apply filter_ext_in. intros y _.
      destruct (str_in y acc) eqn:Ey; simpl; [reflexivity|].
      destruct (eqb y x) eqn:Eyx; [|reflexivity].
      apply eqb_eq in Eyx. subst. congruence.
    + rewrite IH, filter_twice, <- app_assoc. simpl. do 2 f_equal.
      apply filter_ext. intros y. rewrite str_in_app. simpl.
      rewrite orb_false_r, negb_orb. reflexivity.
Qed.

Lemma fromkeys_first_occurrences (l : list str) :
  fromkeys l = first_occurrences l.
Proof.
  unfold fromkeys. rewrite fold_dict_add. simpl.
  induction (first_occurrences l) as [|x r IH]; simpl; congruence.
Qed.

Lemma first_occurrences_In (x : str) (l : list str) :
  In x (first_occurrences l) <-> In x l.
Proof.
  induction l as [|y l IH]; simpl; [reflexivity|].
  rewrite filter_In, IH. split.
  - intros [H | [H _]]; auto.
  - intros [H | H]; [left; exact H|].
    destruct (eqb x y) eqn:E.
    + apply eqb_eq in E. left. congruence.
    + right. auto.
Qed.

Lemma first_occurrences_NoDup (l : list str) : NoDup (first_occurrences l).
Proof.
  induction l as [|y l IH]; simpl; constructor.
  - rewrite filter_In, eqb_refl. intros [_ H]. discriminate.
  - apply NoDup_filter. exact IH.
Qed.

Lemma firstn_NoDup (A : Type) (n : nat) (l : list A) :
  NoDup l -> NoDup (firstn n l).
Proof.
  intros H. rewrite <- (firstn_skipn n l) in H.
  apply NoDup_app_remove_r in H. exact H.
Qed.

Lemma firstn_In (A : Type) (n : nat) (l : list A) (x : A) :
  In x (firstn n l) -> In x l.
Proof.
  intros H. rewrite <- (firstn_skipn n l). apply in_or_app. left. exact H.
Qed.

Lemma slice_to_nonneg (A : Type) (l : list A) (n : Z) :
  (0 <= n)%Z -> slice_to l n = firstn (Z.to_nat n) l.
Proof.
  intros H. unfold slice_to. apply Z.leb_le in H. rewrite H. reflexivity.
Qed.

Lemma slice_to_In (A : Type) (l : list A) (n : Z) (x : A) :
  In x (slice_to l n) -> In x l.
Proof. unfold slice_to. destruct (0 <=? n)%Z; apply firstn_In. Qed.

Lemma slice_to_NoDup (A : Type) (l : list A) (n : Z) :
  NoDup l -> NoDup (slice_to l n).
Proof. unfold slice_to. destruct (0 <=? n)%Z; apply firstn_NoDup. Qed.

Lemma fold_wo_step (elems : list Element) (acc : list str) :
  fold_left wo_step elems acc
  = acc ++ flat_map (fun e => option_list (wo_candidate e)) elems.
Proof.
  revert acc; induction elems as [|e elems IH]; intros acc; simpl.
  - rewrite app_nil_r. reflexivity.
  - rewrite IH. unfold wo_step. destruct (wo_candidate e); simpl.
    + rewrite <- app_assoc. reflexivity.
    + reflexivity.
Qed.

Lemma fold_v3_step (hrefs : list str) (acc : list str) :
  fold_left v3_step hrefs acc = acc ++ v3_listed hrefs.
Proof.
  revert acc; induction hrefs as [|h hrefs IH]; intros acc; simpl.
  - rewrite app_nil_r. reflexivity.
  - rewrite IH. unfold v3_step. destruct (re_find docid_at h); simpl.
    + rewrite <- app_assoc. reflexivity.
    + reflexivity.
Qed.

Lemma get_wo_list_first_occurrences (response : Listing) :
  _get_wo_list_httpx response = first_occurrences (listed response).
Proof.
  destruct response as [|code elems]; simpl; [reflexivity|].
  destruct (code =? 200)%Z; simpl; [|reflexivity].
  rewrite fromkeys_first_occurrences, fold_wo_step. reflexivity.
Qed.

Lemma wo_candidate_normalized (e : Element) (x : str) :
  wo_candidate e = Some x -> normalized x.
Proof.
  unfold wo_candidate.
  match goal with |- context [re_delete separator ?t] => generalize t end.
  intros t H.
  destruct (truthy (re_delete separator t) && startswith (re_delete separator t) (lit "WO")) eqn:E;
    [|discriminate].
  injection H as <-. apply andb_true_iff in E as [_ E]. split; [|exact E].
  intros c Hc. apply filter_In in Hc as [_ Hc].
  destruct (separator c); [discriminate | reflexivity].
Qed.

Lemma digit_not_separator (c : ascii) : isdigit c = true -> separator c = false.
Proof.
  destruct c as [[|] [|] [|] [|] [|] [|] [|] [|]]; intros H;
    solve [reflexivity | discriminate H].
Qed.

Lemma span_all (cls : ascii -> bool) (s a b : str) :
  span cls s = (a, b) -> s = a ++ b /\ Forall (fun c => cls c = true) a.
Proof.
  revert a b; induction s as [|c s IH]; intros a b; simpl.
  - intros H. injection H as <- <-. split; [reflexivity | constructor].
  - destruct (cls c) eqn:E.
    + destruct (span cls s) as [a' b'] eqn:Es. intros H. injection H as <- <-.
      destruct (IH a' b' eq_refl) as [-> Hall]. split; [reflexivity|].
      constructor; assumption.
    + intros H. injection H as <- <-. split; [reflexivity | constructor].
Qed.

Lemma re_find_at (m : str -> option str) (s r : str) :
  re_find m s = Some r -> exists pre t, s = pre ++ t /\ m t = Some r.
Proof.
  induction s as [|c s IH]; simpl.
  - intros H. exists [], []. auto.
  - destruct (m (c :: s)) eqn:E.
    + intros H. injection H as <-. exists [], (c :: s). auto.
    + intros H. destruct (IH H) as [pre [t [-> Ht]]].
      exists (c :: pre), t. auto.
Qed.

Lemma docid_normalized (h g : str) : re_find docid_at h = Some g -> normalized g.
Proof.
  intros H. apply re_find_at in H as [pre [t [_ H]]].
  unfold docid_at in H. destruct (startswith t (lit "docId=WO")); [|discriminate].
  destruct (span isdigit (skipn 8 t)) as [ds r] eqn:Es.
  destruct (truthy ds); [|discriminate]. injection H as <-.
  apply span_all in Es as [_ Hall]. split; [|reflexivity].
  intros c [<-|[<-|Hc]]; try reflexivity.
  apply digit_not_separator. rewrite Forall_forall in Hall. apply Hall. exact Hc.
Qed.

Lemma listed_normalized (response : Listing) : Forall normalized (listed response).
Proof.
  apply Forall_forall. intros x Hx.
  destruct response as [|code elems]; simpl in Hx; [contradiction|].
  destruct (code =? 200)%Z; [|contradiction].
  apply in_flat_map in Hx as [e [_ He]].
  destruct (wo_candidate e) eqn:E; simpl in He; [|contradiction].
  destruct He as [<-|[]]. exact (wo_candidate_normalized _ E).
Qed.

Lemma v3_listed_normalized (hrefs : list str) : Forall normalized (v3_listed hrefs).
Proof.
  apply Forall_forall. intros x Hx.
  apply in_flat_map in Hx as [h [_ He]].
  destruct (re_find docid_at h) eqn:E; simpl in He; [|contradiction].
  destruct He as [<-|[]]. exact (docid_normalized _ E).
Qed.

Lemma prefix_normalized (n : nat) (l : list str) :
  Forall normalized l -> Forall normalized (firstn n (first_occurrences l)).
Proof.
  rewrite !Forall_forall. intros H x Hx.
  apply firstn_In in Hx. apply (proj1 (first_occurrences_In _ _)) in Hx.
  apply H. exact Hx.
Qed.

(** C6.  For every result listing and every requested maximum that is not
    negative, the identifiers the coordinator iterates over
    ([wo_list[:max_results]]) have no duplicates, are at most the maximum
    in number, are the first entries of the listing's tokens with every
    token kept at its first occurrence, and each is normalized: no [/],
    white space or [-] in it and the prefix [WO].  The same holds for the
    list the third variant's lister returns. *)
Theorem candidate_list_deduplicated (max_results : Z) :
  (0 <= max_results)%Z ->
  (forall response,
      NoDup (slice_to (_get_wo_list_httpx response) max_results)
      /\ (Z.of_nat (length (slice_to (_get_wo_list_httpx response) max_results))
          <= max_results)%Z
      /\ slice_to (_get_wo_list_httpx response) max_results
         = firstn (Z.to_nat max_results) (first_occurrences (listed response))
      /\ Forall normalized (slice_to (_get_wo_list_httpx response) max_results))
  /\ (forall hrefs ids,
         v3_search_wipo (Some hrefs) max_results = Some ids ->
         NoDup ids
         /\ (Z.of_nat (length ids) <= max_results)%Z
         /\ ids = firstn (Z.to_nat max_results) (first_occurrences (v3_listed hrefs))
         /\ Forall normalized ids).
Proof.
  intros Hmax. split.
  - intros response. rewrite get_wo_list_first_occurrences.
    rewrite (slice_to_nonneg _ Hmax). split; [|split; [|split]].
    + apply firstn_NoDup, first_occurrences_NoDup.
    + pose proof (firstn_le_length (Z.to_nat max_results)
                    (first_occurrences (listed response))). lia.
    + reflexivity.
    + apply prefix_normalized, listed_normalized.
  - intros hrefs ids H. unfold v3_search_wipo in H. injection H as <-.
    rewrite fromkeys_first_occurrences, fold_v3_step. simpl.
    rewrite (slice_to_nonneg _ Hmax). split; [|split; [|split]].
    + apply firstn_NoDup, first_occurrences_NoDup.
    + pose proof (firstn_le_length (Z.to_nat max_results)
                    (first_occurrences (v3_listed hrefs))). lia.
    + reflexivity.
    + apply prefix_normalized, v3_listed_normalized.
Qed.

Lemma candidate_list_deduplicated_witness :
  (forall response,
      NoDup (slice_to (_get_wo_list_httpx response) 2)
      /\ (Z.of_nat (length (slice_to (_get_wo_list_httpx response) 2)) <= 2)%Z
      /\ slice_to (_get_wo_list_httpx response) 2
         = firstn (Z.to_nat 2) (first_occurrences (listed response))
      /\ Forall normalized (slice_to (_get_wo_list_httpx response) 2))
  /\ (forall hrefs ids,
         v3_search_wipo (Some hrefs) 2 = Some ids ->
         NoDup ids
         /\ (Z.of_nat (length ids) <= 2)%Z
         /\ ids = firstn (Z.to_nat 2) (first_occurrences (v3_listed hrefs))
         /\ Forall normalized ids).
Proof.
  apply (@candidate_list_deduplicated 2%Z). lia.
Defined.

(** ** Claim extraction *)

Lemma digit_not_space (c : ascii) : isdigit c = true -> isspace c = false.
Proof.
  destruct c as [[|] [|] [|] [|] [|] [|] [|] [|]]; intros H;
    solve [reflexivity | discriminate H].
Qed.

Lemma span_app (cls : ascii -> bool) (a b : str) :
  Forall (fun c => cls c = true) a ->
  match b with c :: _ => cls c = false | [] => True end ->
  span cls (a ++ b) = (a, b).
Proof.
  intros Ha Hb. induction Ha as [|c a Hc _ IH]; simpl.
  - destruct b as [|c b]; [reflexivity|]. simpl. rewrite Hb. reflexivity.
  - rewrite Hc, IH. reflexivity.
Qed.

Lemma lstrip_idem (s : str) : lstrip (lstrip s) = lstrip s.
Proof.
  induction s as [|c s IH]; simpl; [reflexivity|].
  destruct (isspace c) eqn:E; [exact IH|]. simpl. rewrite E. reflexivity.
Qed.

Lemma strip_lstrip (s : str) : strip (lstrip s) = strip s.
Proof. unfold strip. rewrite lstrip_idem. reflexivity. Qed.

Lemma number_prefix_numbered (text digits rest : str) :
  numbered text digits rest -> number_prefix text = Some (digits, lstrip rest).
Proof.
  intros [-> [Hne Hall]]. unfold number_prefix.
  rewrite (@span_app isdigit digits ("."%char :: rest) Hall eq_refl).
  destruct digits; [contradiction|]. simpl. reflexivity.
Qed.

Lemma number_prefix_inv (text digits after : str) :
  number_prefix text = Some (digits, after) ->
  exists rest, numbered text digits rest /\ after = lstrip rest.
Proof.
  unfold number_prefix. destruct (span isdigit text) as [ds r] eqn:Es.
  apply span_all in Es as [-> Hall].
  destruct (truthy ds) eqn:T; [|discriminate].
  destruct r as [|c r]; [discriminate|].
  destruct (Ascii.eqb c ".") eqn:E; [|discriminate].
  apply Ascii.eqb_eq in E. subst c. intros H. injection H as <- <-.
  exists r. split; [|reflexivity]. split; [reflexivity|]. split; [|exact Hall].
  intros ->. discriminate.
Qed.

Lemma claim_ref_at_spec (r : str) :
  claim_ref_at r = true <->
  exists w ws ds post,
    r = w ++ ws ++ ds ++ post
    /\ lower w = lit "claim"
    /\ ws <> [] /\ Forall (fun c => isspace c = true) ws
    /\ ds <> [] /\ Forall (fun c => isdigit c = true) ds.
Proof.
  unfold claim_ref_at. split.
  - intros H. apply andb_true_iff in H as [Hw H].
    apply eqb_eq in Hw.
    destruct (span isspace (skipn 5 r)) as [ws r2] eqn:Es.
    apply span_all in Es as [Er Hws].
    apply andb_true_iff in H as [Tws Hd].
    destruct r2 as [|d r3]; [discriminate|].
    exists (firstn 5 r), ws, [d], r3. repeat split.
    + rewrite <- (firstn_skipn 5 r) at 1. rewrite Er. reflexivity.
    + exact Hw.
    + intros ->. discriminate.
    + exact Hws.
    + discriminate.
    + constructor; [exact Hd | constructor].
  - intros [w [ws [ds [post [-> [Hw [Hws [Aws [Hds Ads]]]]]]]]].
    assert (Lw : length w = 5%nat).
    { unfold lower in Hw. apply (f_equal (@length ascii)) in Hw.
      rewrite length_map in Hw. exact Hw. }
    rewrite firstn_app, Lw, Nat.sub_diag, firstn_O, app_nil_r.
    rewrite <- Lw at 1. rewrite firstn_all, Hw. simpl eqb.
    rewrite skipn_app, Lw, Nat.sub_diag. rewrite <- Lw at 1.
    rewrite skipn_all. simpl.
    destruct ds as [|d ds]; [contradiction|].
    rewrite (@span_app isspace ws ((d :: ds) ++ post) Aws).
    + destruct ws; [contradiction|]. simpl. inversion Ads. assumption.
    + simpl. apply digit_not_space. inversion Ads. assumption.
Qed.

Lemma search_claim_ref (s : str) :
  re_search claim_ref_at s = true <-> refers_to_claim s.
Proof.
  rewrite re_search_spec. unfold refers_to_claim. split.
  - intros [pre [r [-> H]]]. apply claim_ref_at_spec in H.
    destruct H as [w [ws [ds [post [-> H]]]]].
    exists pre, w, ws, ds, post. auto.
  - intros [pre [w [ws [ds [post [-> H]]]]]].
    exists pre, (w ++ ws ++ ds ++ post). split; [reflexivity|].
    apply claim_ref_at_spec. exists w, ws, ds, post. auto.
Qed.

Lemma claim_step_app (claims : list claim) (elem : option str) :
  claim_step claims elem = claims ++ claim_step [] elem.
Proof.
  unfold claim_step. destruct elem as [text|]; [|rewrite app_nil_r; reflexivity].
  destruct (number_prefix text) as [[digits rest]|];
    [|rewrite app_nil_r; reflexivity].
  destruct (int_of_digits digits);
    [reflexivity | rewrite app_nil_r; reflexivity].
Qed.

Lemma fold_claim_step (elems : list (option str)) (claims : list claim) :
  fold_left claim_step elems claims = claims ++ flat_map (claim_step []) elems.
Proof.
  revert claims; induction elems as [|e elems IH]; intros claims; simpl.
  - rewrite app_nil_r. reflexivity.
  - rewrite IH, (claim_step_app claims e), <- app_assoc. reflexivity.
Qed.

Lemma digit_value_code (c : ascii) :
  isdigit c = true -> digit_value c = (Z.of_nat (nat_of_ascii c) - 48)%Z.
Proof.
  destruct c as [[] [] [] [] [] [] [] []]; intros H;
    try discriminate H; reflexivity.
Qed.

Lemma digit_value_range (c : ascii) : (0 <= digit_value c <= 9)%Z.
Proof.
  destruct c as [[] [] [] [] [] [] [] []]; cbv; split; discriminate.
Qed.

Lemma fold_decimal (ds : str) (n : Z) :
  Forall (fun c => isdigit c = true) ds ->
  fold_left (fun n c => (10 * n + (Z.of_nat (nat_of_ascii c) - 48))%Z) ds n
  = (n * 10 ^ Z.of_nat (length ds) + decimal ds)%Z.
Proof.
  intros H. revert n. induction H as [|c ds C _ IH]; intros n.
  - cbn [fold_left length decimal]. change (Z.of_nat 0) with 0%Z.
    rewrite Z.pow_0_r. lia.
  - cbn [fold_left length decimal]. rewrite IH, <- (@digit_value_code c C).
    rewrite Nat2Z.inj_succ, Z.pow_succ_r by lia. ring.
Qed.

Lemma int_of_digits_short (ds : str) :
  Forall (fun c => isdigit c = true) ds ->
  (length ds <= 4300)%nat -> int_of_digits ds = Some (decimal ds).
Proof.
  intros D L. unfold int_of_digits, int_max_str_digits.
  destruct (Nat.ltb_spec 4300 (length ds)) as [G|_]; [lia|].
  rewrite (@fold_decimal ds 0%Z D). reflexivity.
Qed.

Lemma int_of_digits_long (ds : str) :
  (4300 < length ds)%nat -> int_of_digits ds = None.
Proof.
  intros L. unfold int_of_digits, int_max_str_digits.
  destruct (Nat.ltb_spec 4300 (length ds)) as [_|G]; [reflexivity | lia].
Qed.

Lemma decimal_nonneg (ds : str) : (0 <= decimal ds)%Z.
Proof.
  induction ds as [|c ds IH]; cbn [decimal]; [lia|].
  pose proof (digit_value_range c) as [R _].
  assert (0 <= 10 ^ Z.of_nat (length ds))%Z by (apply Z.pow_nonneg; lia).
  nia.
Qed.

(** C10.  An element whose text is a number of at most 4300 digits, a
    period and a rest adds one claim to the output: its number is the
    number the leading digits write in base ten, its text is the rest
    (trimmed), and its type is dependent exactly when that text has the
    word claim in any case, then white space, then a number, and
    independent otherwise.  An element whose number has more than 4300
    digits adds nothing, as the conversion raises; neither does an element
    whose text does not begin so, or whose text cannot be read.  The
    output holds the claims of the elements in their order. *)
Theorem extract_claims_classifies :
  (forall claims text digits rest,
      numbered text digits rest ->
      (length digits <= 4300)%nat ->
      exists ty,
        claim_step claims (Some text)
        = claims ++ [{| claim_number := decimal digits;
                        claim_type := ty;
                        claim_text := strip rest |}]
        /\ (ty = dependent <-> refers_to_claim (strip rest))
        /\ (ty = independent <-> ~ refers_to_claim (strip rest)))
  /\ (forall claims text digits rest,
         numbered text digits rest ->
         (4300 < length digits)%nat ->
         claim_step claims (Some text) = claims)
  /\ (forall claims text,
         (forall digits rest, ~ numbered text digits rest) ->
         claim_step claims (Some text) = claims)
  /\ (forall claims, claim_step claims None = claims)
  /\ (forall elems,
         _extract_claims (Some elems) = flat_map (claim_step []) elems).
Proof.
  split; [|split; [|split; [|split]]].
  - intros claims text digits rest H L.
    unfold claim_step. rewrite (number_prefix_numbered H), strip_lstrip.
    rewrite (@int_of_digits_short digits (proj2 (proj2 H)) L).
    pose proof (search_claim_ref (strip rest)) as S.
    destruct (re_search claim_ref_at (strip rest)).
    + exists dependent. split; [reflexivity|]. split.
      * split; [intros _; apply S; reflexivity | reflexivity].
      * split; [discriminate | intros N; exfalso; apply N, S; reflexivity].
    + exists independent. split; [reflexivity|]. split.
      * split; [discriminate | intros N; apply S in N; discriminate].
      * split; [intros _ N; apply S in N; discriminate | reflexivity].
  - intros claims text digits rest H L.
    unfold claim_step.
    rewrite (number_prefix_numbered H), (@int_of_digits_long digits L). reflexivity.
  - intros claims text H. unfold claim_step.
    destruct (number_prefix text) as [[digits after]|] eqn:E; [|reflexivity].
    apply number_prefix_inv in E as [rest [N _]]. destruct (H _ _ N).
  - reflexivity.
  - intros elems. unfold _extract_claims. apply fold_claim_step.
Qed.

Lemma numbered_example :
  numbered (lit "12. The method of Claim 1, wherein") (lit "12")
    (lit " The method of Claim 1, wherein").
Proof.
  split; [reflexivity|]. split; [discriminate|].
  repeat constructor.
Qed.

Lemma extract_claims_classifies_witness :
  exists ty,
    claim_step [] (Some (lit "12. The method of Claim 1, wherein"))
    = [] ++ [{| claim_number := 12;
                claim_type := ty;
                claim_text := lit "The method of Claim 1, wherein" |}]
    /\ (ty = dependent <-> refers_to_claim (strip (lit " The method of Claim 1, wherein")))
    /\ (ty = independent <-> ~ refers_to_claim (strip (lit " The method of Claim 1, wherein"))).
Proof.
  refine (proj1 extract_claims_classifies [] _ _ _ numbered_example _).
  apply Nat.leb_le. reflexivity.
Defined.

Lemma repeat_digits (n : nat) :
  Forall (fun c => isdigit c = true) (repeat "9"%char n).
Proof.
  apply Forall_forall. intros c H. apply repeat_spec in H. subst c. reflexivity.
Qed.

(** C10 as stated fails.  An element whose text is 4301 times the digit
    9, a period and a rest begins with a number followed by a period, and
    yet it is left out of the output, alone or between two other claims:
    the conversion of its number raises and the loop passes over the
    element. *)
Lemma long_number_counterexample :
  numbered (repeat "9"%char 4301 ++ lit ". x") (repeat "9"%char 4301) (lit " x")
  /\ _extract_claims (Some [Some (repeat "9"%char 4301 ++ lit ". x")]) = []
  /\ _extract_claims
       (Some [Some (lit "1. a"); Some (repeat "9"%char 4301 ++ lit ". x");
              Some (lit "3. c")])
     = [{| claim_number := 1; claim_type := independent; claim_text := lit "a" |};
        {| claim_number := 3; claim_type := independent; claim_text := lit "c" |}].
Proof.
  split; [|split].
  - split; [reflexivity|]. split; [|apply repeat_digits].
    intros H. apply (f_equal (@length ascii)) in H.
    rewrite repeat_length in H. discriminate H.
  - vm_compute. reflexivity.
  - vm_compute. reflexivity.
Qed.

(** ** Semantic fallback *)

Lemma groq_without_key (service : Groq) (h f : str) :
  groq_extract_field service h f None = None
  /\ groq_extract_field service h f (Some []) = None.
Proof. split; reflexivity. Qed.

Lemma groq_failure (service : Groq) (h f : str) (key : option str) :
  service (firstn 4000 h) f = None -> groq_extract_field service h f key = None.
Proof.
  intros H. unfold groq_extract_field. destruct key as [k|]; [|reflexivity].
  destruct (negb (truthy k)); [reflexivity|]. rewrite H. reflexivity.
Qed.

Lemma parse_title (service : Groq) (key : option str) (d : Document) :
  title (_parse_biblio_robust service key d)
  = if looks_wrong (dom_title d) (lit "title") then
      match groq_extract_field service (html d) (lit "patent title") key with
      | Some g =>
          if truthy g && negb (looks_wrong g (lit "title")) then g else dom_title d
      | None => dom_title d
      end
    else dom_title d.
Proof. reflexivity. Qed.

Lemma parse_ipc (service : Groq) (key : option str) (d : Document) :
  ipc_codes (_parse_biblio_robust service key d)
  = if looks_wrong (dom_ipc d) (lit "ipc") then
      match groq_extract_field service (html d) (lit "IPC classification codes") key with
      | Some g =>
          if truthy g && negb (looks_wrong g (lit "ipc")) then g else dom_ipc d
      | None => dom_ipc d
      end
    else dom_ipc d.
Proof. reflexivity. Qed.

Lemma parse_applicants (service : Groq) (key : option str) (d : Document) :
  applicants (_parse_biblio_robust service key d)
  = firstn 10
      (if match dom_applicants d with
          | [] => true
          | [a] => looks_wrong a (lit "applicants")
          | _ => false
          end
       then
         match groq_extract_field service (html d)
                 (lit "applicants (comma separated)") key with
         | Some g => if truthy g then map strip (split_comma g) else dom_applicants d
         | None => dom_applicants d
         end
       else dom_applicants d).
Proof. reflexivity. Qed.

(** The title after the fallback is the structural one, or a value of the
    service that the validator accepts. *)
Lemma title_fallback_validated (service : Groq) (key : option str) (d : Document) :
  title (_parse_biblio_robust service key d) = dom_title d
  \/ (looks_wrong (dom_title d) (lit "title") = true
      /\ groq_extract_field service (html d) (lit "patent title") key
         = Some (title (_parse_biblio_robust service key d))
      /\ looks_wrong (title (_parse_biblio_robust service key d)) (lit "title") = false).
Proof.
  rewrite parse_title.
  destruct (looks_wrong (dom_title d) (lit "title")) eqn:W; [|left; reflexivity].
  destruct (groq_extract_field service (html d) (lit "patent title") key) as [g|];
    [|left; reflexivity].
  destruct (truthy g && negb (looks_wrong g (lit "title"))) eqn:V; [|left; reflexivity].
  right. apply andb_true_iff in V as [_ V]. apply negb_true_iff in V. auto.
Qed.

Lemma ipc_fallback_validated (service : Groq) (key : option str) (d : Document) :
  ipc_codes (_parse_biblio_robust service key d) = dom_ipc d
  \/ (looks_wrong (dom_ipc d) (lit "ipc") = true
      /\ groq_extract_field service (html d) (lit "IPC classification codes") key
         = Some (ipc_codes (_parse_biblio_robust service key d))
      /\ looks_wrong (ipc_codes (_parse_biblio_robust service key d)) (lit "ipc") = false).
Proof.
  rewrite parse_ipc.
  destruct (looks_wrong (dom_ipc d) (lit "ipc")) eqn:W; [|left; reflexivity].
  destruct (groq_extract_field service (html d) (lit "IPC classification codes") key) as [g|];
    [|left; reflexivity].
  destruct (truthy g && negb (looks_wrong g (lit "ipc"))) eqn:V; [|left; reflexivity].
  right. apply andb_true_iff in V as [_ V]. apply negb_true_iff in V. auto.
Qed.

(** Without a key, or when every call of the service fails, the parse
    keeps the structural title, applicants and IPC codes. *)
Lemma fallback_off_no_change (service : Groq) (key : option str) (d : Document) :
  key = None \/ (forall h f, service h f = None) ->
  title (_parse_biblio_robust service key d) = dom_title d
  /\ applicants (_parse_biblio_robust service key d) = firstn 10 (dom_applicants d)
  /\ ipc_codes (_parse_biblio_robust service key d) = dom_ipc d.
Proof.
  intros H.
  assert (G : forall f, groq_extract_field service (html d) f key = None).
  { intros f. destruct H as [-> | H]; [reflexivity | apply groq_failure, H]. }
  rewrite parse_title, parse_ipc, parse_applicants, !G.
  repeat split;
    repeat match goal with |- context [if ?b then _ else _] => destruct b end;
    reflexivity.
Qed.

(** C5 at an input where the code departs from it: the page has no
    applicants, the service answers [x]; the parse stores [x] as the
    applicants although the validator reports [x] wrong for that kind. *)
Theorem applicants_fallback_not_validated :
  dom_applicants (Scenario.page []) = []
  /\ groq_extract_field Scenario.groq_x (html (Scenario.page []))
       (lit "applicants (comma separated)") (Some (lit "key")) = Some (lit "x")
  /\ looks_wrong (lit "x") (lit "applicants") = true
  /\ applicants (_parse_biblio_robust Scenario.groq_x (Some (lit "key")) (Scenario.page []))
     = [lit "x"].
Proof. repeat split. Qed.

(** ** Tiered extraction *)

Lemma tiered_run (w : World) (c : Config) (wo : str) (st : State) :
  _extract_patent_tiered w c wo st
  = (tiered_result w c wo,
     {| stats := tiered_stats w c wo (stats st);
        trace := trace st ++ map (fun t => Tier_called t wo) (tiers_run w c wo) |}).
Proof.
  unfold tiered_result, tiered_stats, tiers_run, _extract_patent_tiered.
  destruct (_extract_static_httpx w c wo); simpl; try reflexivity.
  destruct (use_playwright c); simpl; try reflexivity.
  destruct (_extract_direct_playwright w c wo); unfold log, on_stats; simpl;
    rewrite <- ?app_assoc; reflexivity.
Qed.

Lemma tiered_stats_cases (w : World) (c : Config) (wo : str) (s : WIPOStats) :
  match tiered_result w c wo with
  | Return _ =>
      failures (tiered_stats w c wo s) = failures s
      /\ total (tiered_stats w c wo s) = (total s + 1)%Z
  | _ => tiered_stats w c wo s = s
  end.
Proof.
  unfold tiered_result, tiered_stats, _extract_patent_tiered.
  destruct (_extract_static_httpx w c wo); simpl.
  - unfold total; simpl. split; [reflexivity | lia].
  - destruct (use_playwright c); simpl; [|destruct s; reflexivity].
    destruct (_extract_direct_playwright w c wo); simpl.
    + unfold total; simpl. split; [reflexivity | lia].
    + destruct s; reflexivity.
    + destruct s; reflexivity.
  - destruct s; reflexivity.
Qed.

Lemma static_valid (w : World) (c : Config) (wo : str) (p : patent) :
  _extract_static_httpx w c wo = Return p ->
  wo_number p = wo /\ extraction_method p = STATIC_HTTPX
  /\ title_fails (biblio_data p) = false
  /\ exists doc, http_get w wo = Get_response 200 doc
       /\ biblio_data p = _parse_biblio_robust (groq w) (groq_api_key c) doc.
Proof.
  unfold _extract_static_httpx. destruct (http_get w wo) as [|code doc]; [discriminate|].
  destruct (code =? 200)%Z eqn:E; simpl; [|discriminate].
  destruct (title_fails _) eqn:T; [discriminate|].
  intros H. injection H as <-. simpl. apply Z.eqb_eq in E. subst code.
  repeat split; try assumption. exists doc. auto.
Qed.

Lemma direct_valid (w : World) (c : Config) (wo : str) (p : patent) :
  _extract_direct_playwright w c wo = Return p ->
  wo_number p = wo /\ extraction_method p = DIRECT_PLAYWRIGHT
  /\ title_fails (biblio_data p) = false
  /\ exists doc, render w wo = Render_page doc
       /\ biblio_data p = _parse_biblio_robust (groq w) (groq_api_key c) doc.
Proof.
  unfold _extract_direct_playwright. destruct (render w wo) as [| |doc]; try discriminate.
  destruct (title_fails _) eqn:T; [discriminate|].
  intros H. injection H as <-. simpl.
  repeat split; try assumption. exists doc. auto.
Qed.

Lemma tiered_result_cases (w : World) (c : Config) (wo : str) (p : patent) :
  tiered_result w c wo = Return p ->
  _extract_static_httpx w c wo = Return p
  \/ (_extract_static_httpx w c wo = Raise_extraction
      /\ use_playwright c = true
      /\ _extract_direct_playwright w c wo = Return p).
Proof.
  unfold tiered_result, _extract_patent_tiered.
  destruct (_extract_static_httpx w c wo); simpl; try discriminate.
  - intros H. left. exact H.
  - destruct (use_playwright c); simpl; [|discriminate].
    destruct (_extract_direct_playwright w c wo); simpl; try discriminate.
    intros H. right. auto.
Qed.

(** A record the tiered extraction returns carries the identifier, a title
    that is there and that the validator accepts, and that title is the
    structural one of the fetched page or the answer of the service. *)
Lemma tiered_result_valid (w : World) (c : Config) (wo : str) (p : patent) :
  tiered_result w c wo = Return p ->
  wo_number p = wo
  /\ truthy (title (biblio_data p)) = true
  /\ looks_wrong (title (biblio_data p)) (lit "title") = false
  /\ exists doc,
       fetched w p doc
       /\ (title (biblio_data p) = dom_title doc
           \/ groq_extract_field (groq w) (html doc) (lit "patent title")
                (groq_api_key c) = Some (title (biblio_data p))).
Proof.
  intros H.
  assert (V : wo_number p = wo /\ title_fails (biblio_data p) = false
              /\ exists doc, fetched w p doc
                   /\ biblio_data p = _parse_biblio_robust (groq w) (groq_api_key c) doc).
  { apply tiered_result_cases in H as [H | [_ [_ H]]].
    - apply static_valid in H as [Hw [Hm [Ht [doc [Hd Hb]]]]].
      repeat split; try assumption. exists doc. split; [|exact Hb].
      left. rewrite Hw. auto.
    - apply direct_valid in H as [Hw [Hm [Ht [doc [Hd Hb]]]]].
      repeat split; try assumption. exists doc. split; [|exact Hb].
      right. rewrite Hw. auto. }
  destruct V as [Hw [Ht [doc [Hf Hb]]]].
  unfold title_fails in Ht. apply orb_false_iff in Ht as [T1 T2].
  apply negb_false_iff in T1.
  repeat split; try assumption. exists doc. split; [exact Hf|].
  rewrite Hb.
  destruct (title_fallback_validated (groq w) (groq_api_key c) doc) as [E | [_ [E _]]];
    [left; exact E | right; exact E].
Qed.

(** ** The coordinator loop *)

Lemma process_one_eq (R : Rounding) (w : World) (c : Config)
  (cb : option Callback) (total idx : Z) (wo : str)
  (recs : list patent) (st : State) :
  process_one R w c cb total idx wo (recs, st)
  = if round_raised R cb total idx then
      (recs, {| stats := bump_failures (stats st);
                trace := trace st ++ round_calls R cb total idx |})
    else
      (match tiered_result w c wo with
       | Return p => recs ++ [p]
       | _ => recs
       end,
       {| stats := match tiered_result w c wo with
                   | Return _ => tiered_stats w c wo (stats st)
                   | _ => bump_failures (stats st)
                   end;
          trace := trace st ++ round_calls R cb total idx
                   ++ map (fun t => Tier_called t wo) (tiers_run w c wo) |}).
Proof.
  assert (T : forall st0 : State,
             (let (o, st1) := _extract_patent_tiered w c wo st0 in
              match o with
              | Return patent_data => (recs ++ [patent_data], st1)
              | _ => (recs, on_stats bump_failures st1)
              end)
             = (match tiered_result w c wo with
                | Return p => recs ++ [p]
                | _ => recs
                end,
                {| stats := match tiered_result w c wo with
                            | Return _ => tiered_stats w c wo (stats st0)
                            | _ => bump_failures (stats st0)
                            end;
                   trace := trace st0
                            ++ map (fun t => Tier_called t wo) (tiers_run w c wo) |})).
  { intros st0. rewrite tiered_run.
    pose proof (tiered_stats_cases w c wo (stats st0)) as S.
    destruct (tiered_result w c wo); [reflexivity | |];
      unfold on_stats; simpl; rewrite S; reflexivity. }
  unfold process_one, round_raised, round_calls.
  destruct cb as [f|].
  - destruct (idx mod 5 =? 0)%Z.
    + destruct (progress_of R idx total) as [p|].
      * destruct (f p (Processing idx total)); [reflexivity|].
        rewrite T. unfold log. simpl. rewrite <- app_assoc. reflexivity.
      * unfold on_stats. simpl. rewrite app_nil_r. reflexivity.
    + rewrite T. simpl. reflexivity.
  - rewrite T. simpl. reflexivity.
Qed.

Lemma search_wipo_eq (R : Rounding) (w : World) (c : Config) (st : State)
  (query : str) (max_results : Z) (cb : option Callback) :
  first_call_ok cb = true ->
  search_wipo R w c st query max_results cb
  = (Return (fst (process_from R w c cb (reported_total w query max_results) 1
                    (candidates w query max_results) ([], started cb st))),
     snd (process_from R w c cb (reported_total w query max_results) 1
            (candidates w query max_results) ([], started cb st))).
Proof.
  intros H. unfold search_wipo, candidates, reported_total, started.
  assert (E : (let (raised, st0) :=
                 match cb with
                 | Some f => (f 5%Z Getting_WO_list, log (Callback_called 5 Getting_WO_list) st)
                 | None => (false, st)
                 end in (raised, st0))
              = (false, match cb with
                        | Some _ => log (Callback_called 5 Getting_WO_list) st
                        | None => st
                        end)).
  { destruct cb as [f|]; [|reflexivity]. simpl in H.
    apply negb_true_iff in H. rewrite H. reflexivity. }
  destruct cb as [f|].
  - simpl in H. apply negb_true_iff in H. rewrite H.
    destruct (_get_wo_list_httpx (listing w query)) as [|x l] eqn:L.
    + unfold slice_to. destruct (0 <=? max_results)%Z; rewrite firstn_nil; reflexivity.
    + destruct (process_from _ _ _ _ _ _ _ _); reflexivity.
  - destruct (_get_wo_list_httpx (listing w query)) as [|x l] eqn:L.
    + unfold slice_to. destruct (0 <=? max_results)%Z; rewrite firstn_nil; reflexivity.
    + destruct (process_from _ _ _ _ _ _ _ _); reflexivity.
Qed.

Lemma search_wipo_raises (R : Rounding) (w : World) (c : Config) (st : State)
  (query : str) (max_results : Z) (cb : option Callback) :
  first_call_ok cb = false ->
  search_wipo R w c st query max_results cb
  = (Raise_other, log (Callback_called 5 Getting_WO_list) st).
Proof.
  intros H. unfold search_wipo. destruct cb as [f|]; [|discriminate].
  simpl in H. apply negb_false_iff in H. rewrite H. reflexivity.
Qed.

(** Every record of the loop is the result of the tiered extraction of its
    identifier. *)
Lemma process_from_records (R : Rounding) (w : World) (c : Config)
  (cb : option Callback) (total : Z) (wos : list str) :
  forall idx recs st,
    Forall (fun p => tiered_result w c (wo_number p) = Return p) recs ->
    Forall (fun p => tiered_result w c (wo_number p) = Return p)
      (fst (process_from R w c cb total idx wos (recs, st))).
Proof.
  induction wos as [|wo wos IH]; intros idx recs st H; cbn [process_from];
    [exact H|].
  rewrite process_one_eq. destruct (round_raised R cb total idx).
  - apply IH. exact H.
  - apply IH. destruct (tiered_result w c wo) as [p| |] eqn:E; try exact H.
    apply Forall_app. split; [exact H|]. constructor; [|constructor].
    destruct (tiered_result_valid _ _ _ E) as [-> _]. exact E.
Qed.

(** Every round ends with one more record or one more failure. *)
Lemma process_from_accounting (R : Rounding) (w : World) (c : Config)
  (cb : option Callback) (total : Z) (wos : list str) :
  forall idx recs st,
    (Z.of_nat (length (fst (process_from R w c cb total idx wos (recs, st))))
     + failures (stats (snd (process_from R w c cb total idx wos (recs, st))))
     = Z.of_nat (length recs) + failures (stats st) + Z.of_nat (length wos))%Z
    /\ (failures (stats st)
        <= failures (stats (snd (process_from R w c cb total idx wos (recs, st)))))%Z.
Proof.
  induction wos as [|wo wos IH]; intros idx recs st.
  - simpl. lia.
  - cbn [process_from]. rewrite process_one_eq.
    destruct (round_raised R cb total idx).
    + specialize (IH (idx + 1)%Z recs
                    {| stats := bump_failures (stats st);
                       trace := trace st ++ round_calls R cb total idx |}).
      cbn [stats bump_failures failures length] in *. lia.
    + pose proof (tiered_stats_cases w c wo (stats st)) as S.
      destruct (tiered_result w c wo) as [p| |];
        match goal with
        | |- context [process_from _ _ _ _ _ _ _ (?r, ?s)] =>
            specialize (IH (idx + 1)%Z r s)
        end;
        cbn [stats bump_failures failures] in *;
        rewrite ?length_app in *; cbn [length] in *; lia.
Qed.

Lemma emitted_records (R : Rounding) (w : World) (c : Config) (st : State)
  (query : str) (max_results : Z) (cb : option Callback) :
  Forall (fun p => tiered_result w c (wo_number p) = Return p)
    (emitted (search_wipo R w c st query max_results cb)).
Proof.
  destruct (first_call_ok cb) eqn:F.
  - rewrite (search_wipo_eq R w c st query max_results cb F).
    unfold emitted. simpl. apply process_from_records. constructor.
  - rewrite (search_wipo_raises R w c st query max_results cb F).
    unfold emitted. simpl. constructor.
Qed.

(** C2.  Every record [search_wipo] returns has a title that is there and
    that the validator accepts; the title is the one structural extraction
    found in the fetched page or the answer of the semantic fallback; the
    record is the result of the tiered extraction of its identifier.  An
    identifier whose tiered extraction does not return a record has no
    record in the output. *)
Theorem emitted_records_validated (R : Rounding) (w : World) (c : Config)
  (st : State) (query : str) (max_results : Z) (cb : option Callback) :
  (forall p,
      In p (emitted (search_wipo R w c st query max_results cb)) ->
      truthy (title (biblio_data p)) = true
      /\ looks_wrong (title (biblio_data p)) (lit "title") = false
      /\ (exists doc,
             fetched w p doc
             /\ (title (biblio_data p) = dom_title doc
                 \/ groq_extract_field (groq w) (html doc) (lit "patent title")
                      (groq_api_key c) = Some (title (biblio_data p))))
      /\ tiered_result w c (wo_number p) = Return p)
  /\ (forall wo,
         (forall p, tiered_result w c wo <> Return p) ->
         forall p,
           In p (emitted (search_wipo R w c st query max_results cb)) ->
           wo_number p <> wo).
Proof.
  pose proof (emitted_records R w c st query max_results cb) as H.
  rewrite Forall_forall in H. split.
  - intros p Hp. specialize (H p Hp).
    destruct (tiered_result_valid _ _ _ H) as [_ [T [V D]]]. auto.
  - intros wo Hwo p Hp E. specialize (H p Hp). rewrite E in H.
    exact (Hwo p H).
Qed.

Lemma emitted_records_validated_witness :
  truthy (title (biblio_data Scenario.second_record)) = true
  /\ looks_wrong (title (biblio_data Scenario.second_record)) (lit "title") = false
  /\ (exists doc,
         fetched Scenario.two Scenario.second_record doc
         /\ (title (biblio_data Scenario.second_record) = dom_title doc
             \/ groq_extract_field (groq Scenario.two) (html doc) (lit "patent title")
                  (groq_api_key Scenario.crawler)
                = Some (title (biblio_data Scenario.second_record))))
  /\ tiered_result Scenario.two Scenario.crawler (wo_number Scenario.second_record)
     = Return Scenario.second_record.
Proof.
  apply (proj1 (emitted_records_validated Spec.exact Scenario.two Scenario.crawler
                  Scenario.fresh Scenario.query 50 None)).
  vm_compute. left. reflexivity.
Defined.

(** C4.  For an identifier whose tiered extraction does not return a
    record: the round of the loop for it does not raise, leaves the records
    as they were and adds exactly 1 to the failures counter and nothing to
    the other counters; the loop goes on with the next identifier; the call
    (whose first progress report did not raise) returns, its records hold
    none for that identifier, each is the result of the extraction of its
    own identifier, and records plus new failures count the identifiers
    processed. *)
Theorem exhausted_identifier_dropped (R : Rounding) (w : World) (c : Config)
  (cb : option Callback) (wo : str) :
  (forall p, tiered_result w c wo <> Return p) ->
  (forall total idx recs st,
      fst (process_one R w c cb total idx wo (recs, st)) = recs
      /\ stats (snd (process_one R w c cb total idx wo (recs, st)))
         = bump_failures (stats st))
  /\ (forall total idx rest recs st,
         exists st1,
           process_from R w c cb total idx (wo :: rest) (recs, st)
           = process_from R w c cb total (idx + 1) rest (recs, st1)
           /\ stats st1 = bump_failures (stats st))
  /\ (forall st query max_results,
         first_call_ok cb = true ->
         exists recs st',
           search_wipo R w c st query max_results cb = (Return recs, st')
           /\ (forall p, In p recs -> wo_number p <> wo)
           /\ Forall (fun p => tiered_result w c (wo_number p) = Return p) recs
           /\ (Z.of_nat (length recs) + failures (stats st')
               = failures (stats st)
                 + Z.of_nat (length (candidates w query max_results)))%Z).
Proof.
  intros Hwo.
  assert (S1 : forall total idx recs st,
             process_one R w c cb total idx wo (recs, st)
             = (recs, {| stats := bump_failures (stats st);
                         trace := trace (snd (process_one R w c cb total idx wo (recs, st))) |})).
  { intros total idx recs st. rewrite process_one_eq.
    destruct (round_raised R cb total idx); [reflexivity|].
    destruct (tiered_result w c wo) as [p| |] eqn:E; [destruct (Hwo p eq_refl) | |];
      reflexivity. }
  split; [|split].
  - intros total idx recs st. rewrite S1. split; reflexivity.
  - intros total idx rest recs st. cbn [process_from]. rewrite S1.
    eexists. split; reflexivity.
  - intros st query max_results F.
    rewrite (search_wipo_eq R w c st query max_results cb F).
    eexists. eexists. split; [reflexivity|].
    pose proof (process_from_records R w c cb (reported_total w query max_results)
                  (candidates w query max_results) 1 (recs := [])
                  (started cb st) (Forall_nil _)) as P.
    split; [|split].
    + intros p Hp E. rewrite Forall_forall in P. specialize (P p Hp).
      rewrite E in P. exact (Hwo p P).
    + exact P.
    + destruct (process_from_accounting R w c cb (reported_total w query max_results)
                  (candidates w query max_results) 1 [] (started cb st)) as [A _].
      rewrite A. simpl length.
      assert (stats (started cb st) = stats st) as -> by (destruct cb; reflexivity).
      lia.
Qed.

Lemma exhausted_identifier_dropped_witness :
  fst (process_one Spec.exact Scenario.two Scenario.crawler None 2 1
         (lit "WO2022049075") ([], Scenario.fresh)) = []
  /\ stats (snd (process_one Spec.exact Scenario.two Scenario.crawler None 2 1
                   (lit "WO2022049075") ([], Scenario.fresh)))
     = bump_failures (stats Scenario.fresh).
Proof.
  refine (proj1 (@exhausted_identifier_dropped Spec.exact Scenario.two
                   Scenario.crawler None (lit "WO2022049075") _) 2%Z 1%Z [] Scenario.fresh).
  intros p. vm_compute. discriminate.
Defined.

(** ** Order of the tiers *)

Lemma tiers_of_app (wo : str) (a b : list Event) :
  tiers_of wo (a ++ b) = tiers_of wo a ++ tiers_of wo b.
Proof.
  induction a as [|e a IH]; simpl; [reflexivity|].
  destruct e as [t wo'|p m]; [|exact IH].
  destruct (eqb wo' wo); simpl; rewrite IH; reflexivity.
Qed.

Lemma tiers_of_tier_calls (wo wo' : str) (ts : list nat) :
  tiers_of wo' (map (fun t => Tier_called t wo) ts)
  = if eqb wo wo' then ts else [].
Proof.
  induction ts as [|t ts IH]; simpl.
  - destruct (eqb wo wo'); reflexivity.
  - rewrite IH. destruct (eqb wo wo'); reflexivity.
Qed.

Lemma tiers_of_round_calls (R : Rounding) (cb : option Callback)
  (total idx : Z) (wo : str) :
  tiers_of wo (round_calls R cb total idx) = [].
Proof.
  unfold round_calls. destruct cb; [|reflexivity].
  destruct (idx mod 5 =? 0)%Z; [|reflexivity].
  destruct (progress_of R idx total); reflexivity.
Qed.

Lemma tiers_run_cases (w : World) (c : Config) (wo : str) :
  (tiers_run w c wo = [1%nat]
   /\ (_extract_static_httpx w c wo = Raise_extraction -> use_playwright c = false))
  \/ (tiers_run w c wo = [1; 2]%nat
      /\ _extract_static_httpx w c wo = Raise_extraction
      /\ use_playwright c = true).
Proof.
  unfold tiers_run. destruct (_extract_static_httpx w c wo).
  - left. split; [reflexivity | discriminate].
  - destruct (use_playwright c); [right | left]; auto.
  - left. split; [reflexivity | discriminate].
Qed.

Lemma tiers_run_sorted (w : World) (c : Config) (wo : str) :
  StronglySorted lt (tiers_run w c wo).
Proof.
  destruct (tiers_run_cases w c wo) as [[-> _] | [-> _]];
    repeat constructor.
Qed.

(** Over a list without repetition, the loop adds for every identifier an
    ascending run of tiers, and nothing for an identifier not in the list. *)
Lemma process_from_tiers (R : Rounding) (w : World) (c : Config)
  (cb : option Callback) (total : Z) (wo' : str) (wos : list str) :
  NoDup wos ->
  forall idx recs st,
  exists ts,
    tiers_of wo' (trace (snd (process_from R w c cb total idx wos (recs, st))))
    = tiers_of wo' (trace st) ++ ts
    /\ StronglySorted lt ts
    /\ (~ In wo' wos -> ts = []).
Proof.
  intros N. induction N as [|wo wos Hnot N IH]; intros idx recs st.
  - exists []. simpl. rewrite app_nil_r. repeat split. constructor.
  - cbn [process_from]. rewrite process_one_eq.
    assert (Step : exists r1 st1 ts1,
               (if round_raised R cb total idx
                then (recs, {| stats := bump_failures (stats st);
                               trace := trace st ++ round_calls R cb total idx |})
                else (match tiered_result w c wo with
                      | Return p => recs ++ [p]
                      | _ => recs
                      end,
                      {| stats := match tiered_result w c wo with
                                  | Return _ => tiered_stats w c wo (stats st)
                                  | _ => bump_failures (stats st)
                                  end;
                         trace := trace st ++ round_calls R cb total idx
                                  ++ map (fun t => Tier_called t wo) (tiers_run w c wo) |}))
               = (r1, st1)
               /\ tiers_of wo' (trace st1) = tiers_of wo' (trace st) ++ ts1
               /\ StronglySorted lt ts1
               /\ (wo <> wo' -> ts1 = [])).
    { destruct (round_raised R cb total idx).
      - eexists. eexists. exists []. split; [reflexivity|]. simpl.
        rewrite tiers_of_app, tiers_of_round_calls. repeat split. constructor.
      - eexists. eexists. exists (if eqb wo wo' then tiers_run w c wo else []).
        split; [reflexivity|]. simpl.
        rewrite !tiers_of_app, tiers_of_round_calls, tiers_of_tier_calls. simpl.
        split; [reflexivity|]. split.
        + destruct (eqb wo wo'); [apply tiers_run_sorted | constructor].
        + intros Hne. apply eqb_neq in Hne. rewrite Hne. reflexivity. }
    destruct Step as [r1 [st1 [ts1 [-> [T1 [S1 E1]]]]]].
    destruct (IH (idx + 1)%Z r1 st1) as [ts2 [T2 [S2 E2]]].
    destruct (eqb wo wo') eqn:E.
    + apply eqb_eq in E. subst wo'. rewrite (E2 Hnot) in T2.
      exists ts1. rewrite T2, T1, app_nil_r. repeat split; [exact S1|].
      intros H. exfalso. apply H. left. reflexivity.
    + apply eqb_neq in E. rewrite (E1 E) in T1.
      exists ts2. rewrite T2, T1, app_nil_r. repeat split; [exact S2|].
      intros H. apply E2. intros Hin. apply H. right. exact Hin.
Qed.

Lemma candidates_NoDup (w : World) (query : str) (max_results : Z) :
  NoDup (candidates w query max_results).
Proof.
  unfold candidates. apply slice_to_NoDup.
  rewrite get_wo_list_first_occurrences. apply first_occurrences_NoDup.
Qed.

(** C3.  The extraction of one identifier adds to the trace the calls of
    its tiers, which start with tier 1, are strictly ascending and without
    repetition; a tier whose attempt returns a record is the last one
    called and its record is the result; a tier followed by another one
    ended with an extraction error.  In a whole run that starts on a trace
    with no call for an identifier, the tiers called for that identifier
    are strictly ascending. *)
Theorem tier_escalation_monotonic (w : World) (c : Config) (wo : str) (st : State) :
  trace (snd (_extract_patent_tiered w c wo st))
  = trace st ++ map (fun t => Tier_called t wo) (tiers_run w c wo)
  /\ hd_error (tiers_run w c wo) = Some 1%nat
  /\ StronglySorted lt (tiers_run w c wo)
  /\ NoDup (tiers_run w c wo)
  /\ (forall pre t post,
         tiers_run w c wo = pre ++ t :: post ->
         (forall p, attempt w c t wo = Return p ->
                    post = [] /\ fst (_extract_patent_tiered w c wo st) = Return p)
         /\ (post <> [] -> attempt w c t wo = Raise_extraction))
  /\ (forall R query max_results cb wo',
         tiers_of wo' (trace st) = [] ->
         StronglySorted lt
           (tiers_of wo'
              (trace (snd (search_wipo R w c st query max_results cb))))).
Proof.
  split; [rewrite tiered_run; reflexivity|].
  split; [destruct (tiers_run_cases w c wo) as [[-> _] | [-> _]]; reflexivity|].
  split; [apply tiers_run_sorted|].
  split; [destruct (tiers_run_cases w c wo) as [[-> _] | [-> _]];
          repeat constructor; simpl; intuition discriminate|].
  split.
  - intros pre t post E. rewrite tiered_run. cbn [fst].
    unfold tiered_result, _extract_patent_tiered.
    destruct (tiers_run_cases w c wo) as [[T H1] | [T [H1 H2]]]; rewrite T in E.
    + destruct pre as [|x pre]; [|destruct pre; discriminate].
      injection E as <- <-. split; [|intros H; contradiction H; reflexivity].
      intros p Hp. simpl in Hp. rewrite Hp. simpl. auto.
    + destruct pre as [|x pre].
      * injection E as <- <-. split; [|intros _; exact H1].
        intros p Hp. simpl in Hp. rewrite H1 in Hp. discriminate.
      * destruct pre as [|y pre]; [|destruct pre; discriminate].
        injection E as <- <- <-. split; [|intros H; contradiction H; reflexivity].
        intros p Hp. simpl in Hp. rewrite H1, H2. simpl. rewrite Hp. simpl. auto.
  - intros R query max_results cb wo' H0.
    destruct (first_call_ok cb) eqn:F.
    + rewrite (search_wipo_eq R w c st query max_results cb F). cbn [snd].
      destruct (process_from_tiers R w c cb (reported_total w query max_results) wo'
                  (candidates_NoDup w query max_results) 1 [] (started cb st))
        as [ts [T [S _]]].
      rewrite T.
      assert (tiers_of wo' (trace (started cb st)) = []) as ->.
      { destruct cb; [|exact H0]. simpl. rewrite tiers_of_app, H0. reflexivity. }
      exact S.
    + rewrite (search_wipo_raises R w c st query max_results cb F). simpl.
      rewrite tiers_of_app, H0. constructor.
Qed.

Lemma tier_escalation_monotonic_witness :
  StronglySorted lt
    (tiers_of (lit "WO2022049075")
       (trace (snd (search_wipo Spec.exact Scenario.two Scenario.crawler
                      Scenario.fresh Scenario.query 50 None)))).
Proof.
  refine (proj2 (proj2 (proj2 (proj2 (proj2
            (tier_escalation_monotonic Scenario.two Scenario.crawler
               (lit "WO2022049075") Scenario.fresh)))))
            Spec.exact Scenario.query 50%Z None (lit "WO2022049075") _).
  reflexivity.
Defined.

(** ** Progress reports *)

Lemma callbacks_of_app (a b : list Event) :
  callbacks_of (a ++ b) = callbacks_of a ++ callbacks_of b.
Proof.
  induction a as [|e a IH]; simpl; [reflexivity|].
  destruct e; simpl; rewrite IH; reflexivity.
Qed.

Lemma callbacks_of_tier_calls (wo : str) (ts : list nat) :
  callbacks_of (map (fun t => Tier_called t wo) ts) = [].
Proof. induction ts; simpl; auto. Qed.

Lemma process_from_reports (R : Rounding) (w : World) (c : Config)
  (f : Callback) (total : Z) (wos : list str) :
  forall idx recs st,
    callbacks_of (trace (snd (process_from R w c (Some f) total idx wos (recs, st))))
    = callbacks_of (trace st) ++ reports_from R total idx wos.
Proof.
  induction wos as [|wo wos IH]; intros idx recs st; cbn [process_from reports_from].
  - rewrite app_nil_r. reflexivity.
  - rewrite process_one_eq.
    assert (C : callbacks_of (round_calls R (Some f) total idx)
                = if (idx mod 5 =? 0)%Z then
                    match progress_of R idx total with
                    | Some p => [(p, Processing idx total)]
                    | None => []
                    end
                  else []).
    { unfold round_calls. destruct (idx mod 5 =? 0)%Z; [|reflexivity].
      destruct (progress_of R idx total); reflexivity. }
    destruct (round_raised R (Some f) total idx); rewrite IH; cbn [trace];
      rewrite ?callbacks_of_app, ?callbacks_of_tier_calls, C,
        ?app_nil_r, <- app_assoc; reflexivity.
Qed.

Lemma int_of_float_between (x : Q) (k : Z) :
  0 <= x <= inject_Z k -> (0 <= int_of_float x <= k)%Z.
Proof.
  intros [H0 Hk]. unfold int_of_float.
  apply Qle_bool_iff in H0 as B. rewrite B.
  apply Qfloor_resp_le in H0. apply Qfloor_resp_le in Hk.
  change 0 with (inject_Z 0) in H0. rewrite Qfloor_Z in H0, Hk. lia.
Qed.

Lemma progress_between (R : Rounding) (idx total p : Z) :
  (0 <= idx <= total)%Z -> (0 < total)%Z ->
  progress_of R idx total = Some p -> (5 <= p <= 95)%Z.
Proof.
  intros Hi Ht. unfold progress_of.
  destruct (total =? 0)%Z; [discriminate|]. intros H.
  assert (E : (5 + int_of_float (float_mul_int R (int_truediv R idx total) 90))%Z = p)
    by congruence.
  pose proof (@scaled_ratio_between R idx total 90 Hi Ht ltac:(lia)) as B.
  apply int_of_float_between in B. lia.
Qed.

Lemma reports_between (R : Rounding) (total : Z) (wos : list str) :
  forall idx,
    (0 < idx)%Z -> (idx + Z.of_nat (length wos) - 1 <= total)%Z ->
    Forall percent_in_range (reports_from R total idx wos).
Proof.
  induction wos as [|wo wos IH]; intros idx H0 Hn; cbn [reports_from].
  - constructor.
  - cbn [length] in Hn. apply Forall_app. split.
    + destruct (idx mod 5 =? 0)%Z; [|constructor].
      destruct (progress_of R idx total) as [p|] eqn:P; [|constructor].
      constructor; [|constructor]. unfold percent_in_range. cbn [fst].
      assert (5 <= p <= 95)%Z by (apply (@progress_between R idx total p); [lia | lia | exact P]).
      lia.
    + apply IH; lia.
Qed.

Lemma reports_at_multiples (R : Rounding) (total : Z) (wos : list str) :
  total <> 0%Z ->
  forall k,
    map snd (reports_from R total (Z.of_nat k) wos)
    = map (fun i => Processing i total)
        (filter (fun i => (i mod 5 =? 0)%Z) (map Z.of_nat (seq k (length wos)))).
Proof.
  intros Ht. induction wos as [|wo wos IH]; intros k; cbn [reports_from length seq map filter].
  - reflexivity.
  - rewrite map_app.
    replace (Z.of_nat k + 1)%Z with (Z.of_nat (S k)) by lia. rewrite IH.
    destruct (Z.of_nat k mod 5 =? 0)%Z; [|reflexivity].
    unfold progress_of. apply Z.eqb_neq in Ht. rewrite Ht. reflexivity.
Qed.

Lemma candidates_count (w : World) (query : str) (max_results : Z) :
  (0 <= max_results)%Z ->
  Z.of_nat (length (candidates w query max_results))
  = reported_total w query max_results.
Proof.
  intros H. unfold candidates, reported_total.
  rewrite (slice_to_nonneg _ H), length_firstn. lia.
Qed.

(** The loop of the first crawler. *)

Lemma v1_process_one_eq (A : Type) (R : Rounding) (w : V1.World A)
  (cb : option V1.Callback) (total idx : Z) (wo : str)
  (recs : list A) (calls : list (Z * V1.Message)) :
  V1.process_one R w cb total idx wo (recs, calls)
  = (if V1.round_raised R cb total idx then recs
     else match V1.patent_data w wo with
          | Some d => recs ++ [d]
          | None => recs
          end,
     calls ++ match cb with
              | Some _ => V1.reports_from R total idx [wo]
              | None => []
              end).
Proof.
  unfold V1.process_one, V1.round_raised. cbn [V1.reports_from].
  destruct cb as [f|].
  - destruct (idx mod 10 =? 0)%Z.
    + destruct (V1.progress_of R idx total) as [p|].
      * rewrite app_nil_r.
        destruct (f p (V1.Processing_WO idx total)); [reflexivity|].
        destruct (V1.patent_data w wo); reflexivity.
      * rewrite !app_nil_r. reflexivity.
    + rewrite !app_nil_r. destruct (V1.patent_data w wo); reflexivity.
  - rewrite app_nil_r. destruct (V1.patent_data w wo); reflexivity.
Qed.

Lemma v1_process_from_reports (A : Type) (R : Rounding) (w : V1.World A)
  (f : V1.Callback) (total : Z) (wos : list str) :
  forall idx recs calls,
    snd (V1.process_from R w (Some f) total idx wos (recs, calls))
    = calls ++ V1.reports_from R total idx wos.
Proof.
  induction wos as [|wo wos IH]; intros idx recs calls;
    cbn [V1.process_from].
  - cbn [V1.reports_from]. rewrite app_nil_r. reflexivity.
  - rewrite v1_process_one_eq, IH, <- app_assoc. f_equal.
    cbn [V1.reports_from]. rewrite app_nil_r. reflexivity.
Qed.

Lemma v1_progress_between (R : Rounding) (idx total p : Z) :
  (0 <= idx <= total)%Z -> (0 < total)%Z ->
  V1.progress_of R idx total = Some p -> (5 <= p <= 20)%Z.
Proof.
  intros Hi Ht. unfold V1.progress_of.
  destruct (total =? 0)%Z; [discriminate|]. intros H.
  assert (E : (5 + int_of_float (float_mul_int R (int_truediv R idx total) 15))%Z = p)
    by congruence.
  pose proof (@scaled_ratio_between R idx total 15 Hi Ht ltac:(lia)) as B.
  apply int_of_float_between in B. lia.
Qed.

Lemma v1_reports_between (R : Rounding) (total : Z) (wos : list str) :
  forall idx,
    (0 < idx)%Z -> (idx + Z.of_nat (length wos) - 1 <= total)%Z ->
    Forall (@percent_in_range V1.Message) (V1.reports_from R total idx wos).
Proof.
  induction wos as [|wo wos IH]; intros idx H0 Hn; cbn [V1.reports_from].
  - constructor.
  - cbn [length] in Hn. apply Forall_app. split.
    + destruct (idx mod 10 =? 0)%Z; [|constructor].
      destruct (V1.progress_of R idx total) as [p|] eqn:P; [|constructor].
      constructor; [|constructor]. unfold percent_in_range. cbn [fst].
      assert (5 <= p <= 20)%Z
        by (apply (@v1_progress_between R idx total p); [lia | lia | exact P]).
      lia.
    + apply IH; lia.
Qed.

Lemma v1_reports_at_multiples (R : Rounding) (total : Z) (wos : list str) :
  total <> 0%Z ->
  forall k,
    map snd (V1.reports_from R total (Z.of_nat k) wos)
    = map (fun i => V1.Processing_WO i total)
        (filter (fun i => (i mod 10 =? 0)%Z) (map Z.of_nat (seq k (length wos)))).
Proof.
  intros Ht. induction wos as [|wo wos IH]; intros k;
    cbn [V1.reports_from length seq map filter].
  - reflexivity.
  - rewrite map_app.
    replace (Z.of_nat k + 1)%Z with (Z.of_nat (S k)) by lia. rewrite IH.
    destruct (Z.of_nat k mod 10 =? 0)%Z; [|reflexivity].
    unfold V1.progress_of. apply Z.eqb_neq in Ht. rewrite Ht. reflexivity.
Qed.

Lemma slice_to_length (A : Type) (l : list A) (n : Z) :
  (length (slice_to l n) <= length l)%nat.
Proof.
  unfold slice_to. destruct (0 <=? n)%Z; rewrite length_firstn; lia.
Qed.

(** The first crawler reports once after the listing with 5 percent and
    then exactly at the multiples of 10, every percent between 0 and 100;
    a report that raises inside the loop makes the loop skip that number,
    and a first report that raises makes the call return no record. *)
Lemma v1_progress_reports (A : Type) (R : Rounding) (w : V1.World A)
  (max_results : Z) (g : V1.Callback) :
  Forall (@percent_in_range V1.Message)
    ((5%Z, V1.Found (Z.of_nat (length (V1.wo_numbers w))))
     :: V1.reports_from R (Z.of_nat (length (V1.wo_numbers w))) 1
          (slice_to (V1.wo_numbers w) max_results))
  /\ map snd (V1.reports_from R (Z.of_nat (length (V1.wo_numbers w))) 1
                (slice_to (V1.wo_numbers w) max_results))
     = map (fun i => V1.Processing_WO i (Z.of_nat (length (V1.wo_numbers w))))
         (filter (fun i => (i mod 10 =? 0)%Z)
            (map Z.of_nat
               (seq 1 (length (slice_to (V1.wo_numbers w) max_results)))))
  /\ (V1.goto_raises w = false ->
      g 5%Z (V1.Found (Z.of_nat (length (V1.wo_numbers w)))) = false ->
      snd (V1.search_wipo R w max_results (Some g))
      = (5%Z, V1.Found (Z.of_nat (length (V1.wo_numbers w))))
        :: V1.reports_from R (Z.of_nat (length (V1.wo_numbers w))) 1
             (slice_to (V1.wo_numbers w) max_results))
  /\ (g 5%Z (V1.Found (Z.of_nat (length (V1.wo_numbers w)))) = true ->
      fst (V1.search_wipo R w max_results (Some g)) = [])
  /\ (forall total idx wo recs calls,
         V1.round_raised R (Some g) total idx = true ->
         fst (V1.process_one R w (Some g) total idx wo (recs, calls)) = recs).
Proof.
  pose proof (slice_to_length (V1.wo_numbers w) max_results) as L.
  split; [|split; [|split; [|split]]].
  - constructor.
    + unfold percent_in_range. simpl. lia.
    + apply v1_reports_between; lia.
  - destruct (slice_to (V1.wo_numbers w) max_results) as [|x l] eqn:E;
      [reflexivity|].
    apply (@v1_reports_at_multiples R _ (x :: l)) with (k := 1%nat).
    cbn [length] in L. lia.
  - intros G F. unfold V1.search_wipo. rewrite G, F.
    rewrite v1_process_from_reports. reflexivity.
  - intros F. unfold V1.search_wipo.
    destruct (V1.goto_raises w); [reflexivity|]. rewrite F. reflexivity.
  - intros total idx wo recs calls H. rewrite v1_process_one_eq, H. reflexivity.
Qed.

(** C9, as the code has it.  With a requested maximum of at least 1: the
    callback is called once before the listing with 5 percent, and then
    exactly at the identifiers whose index is a multiple of 5, with
    5 + int(idx / total * 90) percent; every percent lies between 0 and
    100.  When the first call raises, the exception leaves [search_wipo].
    When a call inside the loop raises, the round's handler catches it:
    the identifier of that round is skipped, no tier is called for it, and
    the failures counter goes up by 1.  The first crawler does the same at
    the multiples of 10 with 5 + int(idx / total * 15) percent; there a
    report that raises inside the loop skips the number of that round, and
    a first report that raises makes the call return no record. *)
Theorem progress_reports_cadence (R : Rounding) (w : World) (c : Config)
  (st : State) (query : str) (max_results : Z) (f : Callback) :
  (0 < max_results)%Z ->
  Forall percent_in_range
    ((5%Z, Getting_WO_list)
     :: reports_from R (reported_total w query max_results) 1
          (candidates w query max_results))
  /\ map snd (reports_from R (reported_total w query max_results) 1
                (candidates w query max_results))
     = map (fun i => Processing i (reported_total w query max_results))
         (filter (fun i => (i mod 5 =? 0)%Z)
            (map Z.of_nat (seq 1 (length (candidates w query max_results)))))
  /\ (f 5%Z Getting_WO_list = false ->
      exists recs st',
        search_wipo R w c st query max_results (Some f) = (Return recs, st')
        /\ callbacks_of (trace st')
           = callbacks_of (trace st)
             ++ (5%Z, Getting_WO_list)
                :: reports_from R (reported_total w query max_results) 1
                     (candidates w query max_results))
  /\ (f 5%Z Getting_WO_list = true ->
      search_wipo R w c st query max_results (Some f)
      = (Raise_other, log (Callback_called 5 Getting_WO_list) st))
  /\ (forall idx wo recs st0,
         round_raised R (Some f) (reported_total w query max_results) idx = true ->
         process_one R w c (Some f) (reported_total w query max_results) idx wo
           (recs, st0)
         = (recs,
            {| stats := bump_failures (stats st0);
               trace := trace st0
                        ++ round_calls R (Some f)
                             (reported_total w query max_results) idx |}))
  /\ (forall (A : Type) (w1 : V1.World A) (max1 : Z) (g : V1.Callback),
         Forall percent_in_range
           ((5%Z, V1.Found (Z.of_nat (length (V1.wo_numbers w1))))
            :: V1.reports_from R (Z.of_nat (length (V1.wo_numbers w1))) 1
                 (slice_to (V1.wo_numbers w1) max1))
         /\ map snd (V1.reports_from R (Z.of_nat (length (V1.wo_numbers w1))) 1
                       (slice_to (V1.wo_numbers w1) max1))
            = map (fun i => V1.Processing_WO i (Z.of_nat (length (V1.wo_numbers w1))))
                (filter (fun i => (i mod 10 =? 0)%Z)
                   (map Z.of_nat
                      (seq 1 (length (slice_to (V1.wo_numbers w1) max1)))))
         /\ (V1.goto_raises w1 = false ->
             g 5%Z (V1.Found (Z.of_nat (length (V1.wo_numbers w1)))) = false ->
             snd (V1.search_wipo R w1 max1 (Some g))
             = (5%Z, V1.Found (Z.of_nat (length (V1.wo_numbers w1))))
               :: V1.reports_from R (Z.of_nat (length (V1.wo_numbers w1))) 1
                    (slice_to (V1.wo_numbers w1) max1))
         /\ (g 5%Z (V1.Found (Z.of_nat (length (V1.wo_numbers w1)))) = true ->
             fst (V1.search_wipo R w1 max1 (Some g)) = [])
         /\ (forall total idx wo recs calls,
                V1.round_raised R (Some g) total idx = true ->
                fst (V1.process_one R w1 (Some g) total idx wo (recs, calls))
                = recs)).
Proof.
  intros Hmax.
  pose proof (@candidates_count w query max_results ltac:(lia)) as Hn.
  split; [|split; [|split; [|split; [|split]]]];
    [| | | | | intros A w1 max1 g; apply v1_progress_reports].
  - constructor.
    + unfold percent_in_range. simpl. lia.
    + apply reports_between; lia.
  - destruct (candidates w query max_results) as [|x l] eqn:E; [reflexivity|].
    apply (@reports_at_multiples R _ (x :: l)) with (k := 1%nat).
    cbn [length] in Hn. lia.
  - intros F.
    assert (F' : first_call_ok (Some f) = true) by (simpl; rewrite F; reflexivity).
    rewrite (search_wipo_eq R w c st query max_results (Some f) F').
    eexists. eexists. split; [reflexivity|].
    rewrite process_from_reports. simpl. rewrite callbacks_of_app, <- app_assoc.
    reflexivity.
  - intros F. apply search_wipo_raises. simpl. rewrite F. reflexivity.
  - intros idx wo recs st0 H. rewrite process_one_eq, H. reflexivity.
Qed.

Lemma progress_reports_cadence_witness :
  Forall percent_in_range
    ((5%Z, Getting_WO_list)
     :: reports_from Spec.exact (reported_total Scenario.five Scenario.query 50) 1
          (candidates Scenario.five Scenario.query 50)).
Proof.
  refine (proj1 (@progress_reports_cadence Spec.exact Scenario.five Scenario.crawler
                   Scenario.fresh Scenario.query 50%Z Scenario.quiet _)).
  reflexivity.
Defined.

Lemma int_of_float_int (x : Q) (z : Z) :
  (0 <= z)%Z -> x == inject_Z z -> int_of_float x = z.
Proof.
  intros Hz E. unfold int_of_float.
  assert (B : Qle_bool 0 x = true).
  { apply Qle_bool_iff. rewrite E. change 0 with (inject_Z 0).
    rewrite <- Zle_Qle. exact Hz. }
  rewrite B, E. apply Qfloor_Z.
Qed.

(** At the last of [n] identifiers the percentage is 95. *)
Lemma progress_full (R : Rounding) (n : Z) :
  (0 < n)%Z -> progress_of R n n = Some 95%Z.
Proof.
  intros Hn. unfold progress_of.
  destruct (n =? 0)%Z eqn:E; [apply Z.eqb_eq in E; lia|]. f_equal.
  rewrite (@int_of_float_int _ 90); [reflexivity | lia |].
  unfold float_mul_int, int_truediv.
  assert (Q1 : rnd R (inject_Z n / inject_Z n) == inject_Z 1).
  { apply rnd_int; [apply small_int; lia|].
    unfold Qdiv. apply Qmult_inv_r. change 0 with (inject_Z 0).
    rewrite inject_Z_injective. lia. }
  apply rnd_int; [apply small_int; lia|]. rewrite Q1. reflexivity.
Qed.

(** C9 as stated fails.  Over five identifiers whose pages all have a
    title: with a callback that never raises the call returns five records
    and counts no failure; with a callback that raises at 95 percent it
    returns four records and counts one failure; with a callback that
    raises at its first call it raises. *)
Lemma callback_exception_counterexample :
  (forall R,
      length (emitted (search_wipo R Scenario.five Scenario.crawler Scenario.fresh
                         Scenario.query 50 (Some Scenario.quiet))) = 5%nat
      /\ failures (stats (snd (search_wipo R Scenario.five Scenario.crawler
                                 Scenario.fresh Scenario.query 50
                                 (Some Scenario.quiet)))) = 0%Z)
  /\ (forall R,
         length (emitted (search_wipo R Scenario.five Scenario.crawler Scenario.fresh
                            Scenario.query 50 (Some Scenario.raises_at_95))) = 4%nat
         /\ failures (stats (snd (search_wipo R Scenario.five Scenario.crawler
                                    Scenario.fresh Scenario.query 50
                                    (Some Scenario.raises_at_95)))) = 1%Z)
  /\ (forall R,
         fst (search_wipo R Scenario.five Scenario.crawler Scenario.fresh
                Scenario.query 50 (Some Scenario.raises_at_once)) = Raise_other).
Proof.
  split; [|split].
  - intros R. vm_compute. split; reflexivity.
  - intros R.
    rewrite (@search_wipo_eq R Scenario.five Scenario.crawler Scenario.fresh
               Scenario.query 50 (Some Scenario.raises_at_95) eq_refl).
    change (reported_total Scenario.five Scenario.query 50) with 5%Z.
    change (candidates Scenario.five Scenario.query 50)
      with [lit "WO2022000001"; lit "WO2022000002"; lit "WO2022000003";
            lit "WO2022000004"; lit "WO2022000005"].
    cbn [process_from].
    set (acc4 := process_one R Scenario.five Scenario.crawler _ 5
                   (1 + 1 + 1 + 1)%Z _ _).
    assert (L4 : length (fst acc4) = 4%nat /\ failures (stats (snd acc4)) = 0%Z)
      by (subst acc4; vm_compute; split; reflexivity).
    destruct acc4 as [r4 s4]. cbn [fst snd] in L4.
    change (1 + 1 + 1 + 1 + 1)%Z with 5%Z. rewrite process_one_eq.
    assert (Hr : round_raised R (Some Scenario.raises_at_95) 5 5 = true).
    { unfold round_raised. change (5 mod 5 =? 0)%Z with true. cbv iota.
      rewrite progress_full by lia. reflexivity. }
    rewrite Hr. unfold emitted. cbn [fst snd stats bump_failures failures].
    split; [apply L4 | lia].
  - intros R. reflexivity.
Qed.

(* ================================================================== *)
(** * Further properties of the code *)
(* ================================================================== *)

(** ** Trimming *)

Lemma lstrip_split (s : str) :
  exists a, s = a ++ lstrip s /\ all_space a.
Proof.
  induction s as [|c s [a [E A]]]; simpl.
  - exists []. split; [reflexivity | constructor].
  - destruct (isspace c) eqn:C.
    + exists (c :: a). split; [simpl; congruence | constructor; assumption].
    + exists []. split; [reflexivity | constructor].
Qed.

Lemma lstrip_all_space (a s : str) : all_space a -> lstrip (a ++ s) = lstrip s.
Proof.
  intros A. induction A as [|c a C _ IH]; simpl; [reflexivity|].
  rewrite C. exact IH.
Qed.

Lemma lstrip_app (u b : str) :
  lstrip (u ++ b) = match lstrip u with [] => lstrip b | _ :: _ => lstrip u ++ b end.
Proof.
  induction u as [|c u IH]; simpl.
  - destruct (lstrip b); reflexivity.
  - destruct (isspace c); [exact IH | reflexivity].
Qed.

Lemma all_space_rev (a : str) : all_space a -> all_space (rev a).
Proof. unfold all_space. apply Forall_rev. Qed.

Lemma all_space_lstrip (a : str) : all_space a -> lstrip a = [].
Proof.
  intros A. rewrite <- (app_nil_r a), lstrip_all_space by exact A. reflexivity.
Qed.

Lemma rstrip_all_space (u b : str) : all_space b -> rstrip (u ++ b) = rstrip u.
Proof.
  intros B. unfold rstrip. rewrite rev_app_distr, lstrip_all_space;
    [reflexivity | apply all_space_rev, B].
Qed.

(** White space around a string does not change what [strip] gives. *)
Lemma strip_pad (a u b : str) :
  all_space a -> all_space b -> strip (a ++ u ++ b) = strip u.
Proof.
  intros A B. unfold strip. rewrite lstrip_all_space by exact A.
  rewrite lstrip_app. destruct (lstrip u) as [|c t] eqn:E.
  - rewrite (all_space_lstrip B). reflexivity.
  - apply rstrip_all_space. exact B.
Qed.

Lemma strip_split (s : str) :
  exists a b, s = a ++ strip s ++ b /\ all_space a /\ all_space b.
Proof.
  destruct (lstrip_split s) as [a [E A]].
  destruct (lstrip_split (rev (lstrip s))) as [b [Eb B]].
  exists a, (rev b). split; [|split; [exact A | apply all_space_rev, B]].
  unfold strip, rstrip. rewrite <- rev_app_distr, <- Eb, rev_involutive.
  exact E.
Qed.

Lemma strip_idem (s : str) : strip (strip s) = strip s.
Proof.
  destruct (strip_split s) as [a [b [E [A B]]]].
  rewrite E at 2. rewrite strip_pad by assumption. reflexivity.
Qed.

Lemma strip_no_space (s : str) :
  (forall c, In c s -> isspace c = false) -> strip s = s.
Proof.
  intros H.
  assert (L : forall t : str, (forall c, In c t -> isspace c = false) -> lstrip t = t).
  { intros [|c t] Ht; [reflexivity|]. simpl. rewrite (Ht c); [reflexivity | left; reflexivity]. }
  unfold strip, rstrip. rewrite (L s H), L, rev_involutive; [reflexivity|].
  intros c Hc. apply H. apply in_rev. exact Hc.
Qed.

(** ** More on the validator *)

Lemma looks_wrong_strip (value kind : str) :
  looks_wrong (strip value) kind = looks_wrong value kind.
Proof.
  unfold looks_wrong. rewrite strip_idem.
  destruct (truthy (strip value)) eqn:T.
  - rewrite (strip_truthy _ T). reflexivity.
  - cbn [negb]. rewrite !orb_true_r. reflexivity.
Qed.

(** X1.  White space around a value never changes the verdict of the
    validator, whatever the kind. *)
Theorem looks_wrong_ignores_padding (a value b kind : str) :
  all_space a -> all_space b ->
  looks_wrong (a ++ value ++ b) kind = looks_wrong value kind.
Proof.
  intros A B.
  rewrite <- (looks_wrong_strip (a ++ value ++ b)), strip_pad by assumption.
  apply looks_wrong_strip.
Qed.

Lemma looks_wrong_ignores_padding_witness :
  looks_wrong (lit "  " ++ lit "WO2022049075" ++ [ascii_of_nat 10])
    (lit "publication_number")
  = looks_wrong (lit "WO2022049075") (lit "publication_number").
Proof.
  apply looks_wrong_ignores_padding; repeat constructor.
Defined.

(** X2.  For a kind other than [title], [ipc], [publication_number] and
    [applicants] (so for [cpc], [inventors], the dates and the abstract)
    the validator has no rule of its own: a value is wrong exactly when it
    is empty after trimming or in the noise vocabulary. *)
Theorem looks_wrong_unknown_kind (value kind : str) :
  ~ In kind known_kinds ->
  (looks_wrong value kind = true
   <-> strip value = [] \/ str_in (lower (strip value)) invalid_patterns = true).
Proof.
  intros K.
  assert (N : forall k, In k known_kinds -> eqb kind k = false).
  { intros k Hk. apply eqb_neq. intros ->. exact (K Hk). }
  unfold looks_wrong.
  rewrite (N (lit "title")), (N (lit "ipc")), (N (lit "publication_number")),
    (N (lit "applicants"));
    try (unfold known_kinds; simpl; tauto).
  destruct (truthy (strip value)) eqn:T.
  - rewrite (strip_truthy _ T). cbn [negb orb].
    destruct (str_in (lower (strip value)) invalid_patterns) eqn:S.
    + split; [intros _; right; reflexivity | reflexivity].
    + split; [discriminate|].
      intros [E | E]; [rewrite E in T; discriminate T | discriminate E].
  - cbn [negb]. rewrite orb_true_r. apply truthy_nil in T. split; auto.
Qed.

Lemma looks_wrong_unknown_kind_witness :
  looks_wrong (lit "ab") (lit "inventors") = true
  <-> strip (lit "ab") = []
      \/ str_in (lower (strip (lit "ab"))) invalid_patterns = true.
Proof.
  apply looks_wrong_unknown_kind.
  unfold known_kinds. simpl. intros [H|[H|[H|[H|[]]]]]; discriminate H.
Defined.

(** ** More on the candidate listing *)

Lemma filter_all (A : Type) (f : A -> bool) (l : list A) :
  (forall x, In x l -> f x = true) -> filter f l = l.
Proof.
  induction l as [|x l IH]; intros H; simpl; [reflexivity|].
  rewrite (H x (or_introl eq_refl)), IH; [reflexivity|].
  intros y Hy. apply H. right. exact Hy.
Qed.

Lemma first_occurrences_id (l : list str) : NoDup l -> first_occurrences l = l.
Proof.
  induction 1 as [|x l Hx N IH]; simpl; [reflexivity|].
  rewrite IH. f_equal. apply filter_all. intros y Hy.
  apply negb_true_iff, eqb_neq. intros ->. exact (Hx Hy).
Qed.

Lemma normalized_trimmed (id : str) : normalized id -> strip id = id.
Proof.
  intros [H _]. apply strip_no_space. intros c Hc. specialize (H c Hc).
  unfold separator in H. apply orb_false_iff in H as [H _].
  apply orb_false_iff in H as [_ H]. exact H.
Qed.

Lemma wo_candidate_normalized_text (id : str) (h : option str) :
  normalized id -> wo_candidate {| get_text := id; href := h |} = Some id.
Proof.
  intros N. pose proof (normalized_trimmed N) as T. destruct N as [S W].
  unfold wo_candidate. cbn [get_text href]. rewrite T.
  assert (Tr : truthy id = true).
  { apply startswith_app in W as [r ->]. reflexivity. }
  assert (D : re_delete separator id = id).
  { unfold re_delete. apply filter_all. intros c Hc. rewrite (S c Hc). reflexivity. }
  rewrite Tr. cbn [negb andb].
  destruct h; rewrite D, Tr, W; reflexivity.
Qed.

(** X3.  When the listing request raises or answers with a status other
    than 200 there is no candidate; otherwise an identifier is a candidate
    exactly when the loop derives it from some element of the listing:
    none is lost and none is invented. *)
Theorem listing_members :
  _get_wo_list_httpx Listing_raises = []
  /\ (forall status_code elems id,
         In id (_get_wo_list_httpx (Listing_response status_code elems))
         <-> status_code = 200%Z
             /\ exists e, In e elems /\ wo_candidate e = Some id).
Proof.
  split; [reflexivity|]. intros code elems id.
  rewrite get_wo_list_first_occurrences, first_occurrences_In. simpl.
  destruct (code =? 200)%Z eqn:E.
  - apply Z.eqb_eq in E. rewrite in_flat_map. split.
    + intros [e [He Hc]]. split; [exact E|]. exists e. split; [exact He|].
      destruct (wo_candidate e); simpl in Hc; [|contradiction].
      destruct Hc as [->|[]]. reflexivity.
    + intros [_ [e [He Hc]]]. exists e. split; [exact He|]. rewrite Hc.
      left. reflexivity.
  - apply Z.eqb_neq in E. split; [contradiction | intros [H _]; contradiction].
Qed.

(** X4.  Normalizing is the identity on normalized identifiers: a listing
    whose elements show distinct normalized identifiers gives back exactly
    these, in order, whatever their links are. *)
Theorem listing_of_normalized (ids : list str) (links : str -> option str) :
  NoDup ids -> Forall normalized ids ->
  _get_wo_list_httpx
    (Listing_response 200
       (map (fun id => {| get_text := id; href := links id |}) ids))
  = ids.
Proof.
  intros N F. rewrite get_wo_list_first_occurrences. simpl.
  assert (E : flat_map (fun e => option_list (wo_candidate e))
                (map (fun id => {| get_text := id; href := links id |}) ids) = ids).
  { clear N. induction F as [|id ids Hid _ IH]; simpl; [reflexivity|].
    rewrite (wo_candidate_normalized_text (links id) Hid), IH. reflexivity. }
  rewrite E. apply first_occurrences_id. exact N.
Qed.

Lemma listing_of_normalized_witness :
  _get_wo_list_httpx
    (Listing_response 200
       (map (fun id => {| get_text := id; href := None |})
          [lit "WO2022049075"; lit "WO2019028689"]))
  = [lit "WO2022049075"; lit "WO2019028689"].
Proof.
  apply (@listing_of_normalized [lit "WO2022049075"; lit "WO2019028689"]
           (fun _ => None)).
  - repeat constructor; simpl; intuition discriminate.
  - repeat constructor; vm_compute; intuition (subst; reflexivity).
Defined.

(** X5.  Every identifier the third variant's lister returns is [WO]
    followed by digits only, at least one, and stands after [docId=] in
    the link of some anchor of the listing. *)
Theorem v3_identifiers_format (hrefs : list str) (limit : Z) (ids : list str) :
  v3_search_wipo (Some hrefs) limit = Some ids ->
  Forall (fun id =>
            (exists ds, id = lit "WO" ++ ds /\ ds <> []
                        /\ Forall (fun c => isdigit c = true) ds)
            /\ exists h, In h hrefs /\ contains (lit "docId=" ++ id) h = true)
    ids.
Proof.
  unfold v3_search_wipo. intros H. injection H as <-.
  rewrite fromkeys_first_occurrences, fold_v3_step. simpl.
  apply Forall_forall. intros id Hid.
  apply slice_to_In in Hid. apply (proj1 (first_occurrences_In _ _)) in Hid.
  apply in_flat_map in Hid as [h [Hh Hc]].
  destruct (re_find docid_at h) as [g|] eqn:E; simpl in Hc; [|contradiction].
  destruct Hc as [->|[]].
  apply re_find_at in E as [pre [t [-> E]]]. unfold docid_at in E.
  destruct (startswith t (lit "docId=WO")) eqn:S; [|discriminate].
  destruct (span isdigit (skipn 8 t)) as [ds r] eqn:Es.
  destruct (truthy ds) eqn:T; [|discriminate]. injection E as <-.
  apply span_all in Es as [Er Hall]. split.
  - exists ds. split; [reflexivity|]. split; [|exact Hall].
    intros ->. discriminate.
  - exists (pre ++ t). split; [exact Hh|]. unfold contains.
    apply re_search_spec. exists pre, t. split; [reflexivity|].
    apply startswith_app in S as [u Eu]. apply startswith_app.
    exists r. rewrite Eu in Er. simpl in Er. rewrite Eu, Er. reflexivity.
Qed.

Lemma v3_identifiers_format_witness :
  Forall (fun id =>
            (exists ds, id = lit "WO" ++ ds /\ ds <> []
                        /\ Forall (fun c => isdigit c = true) ds)
            /\ exists h,
                 In h [lit "detail.jsf?docId=WO2022049075&x=1"]
                 /\ contains (lit "docId=" ++ id) h = true)
    [lit "WO2022049075"].
Proof.
  apply (@v3_identifiers_format [lit "detail.jsf?docId=WO2022049075&x=1"] 10%Z).
  reflexivity.
Defined.

(** ** More on the coordinator *)

Lemma quiet_callback (R : Rounding) (cb : option Callback) (total : Z) :
  cb = None \/ (total <> 0%Z /\ exists f, cb = Some f /\ forall p m, f p m = false) ->
  forall idx, round_raised R cb total idx = false.
Proof.
  intros [-> | [Ht [f [-> Hf]]]] idx; [reflexivity|].
  unfold round_raised, progress_of. apply Z.eqb_neq in Ht. rewrite Ht.
  destruct (idx mod 5 =? 0)%Z; [apply Hf | reflexivity].
Qed.

Lemma candidates_total (w : World) (query : str) (max_results : Z) :
  candidates w query max_results <> [] -> reported_total w query max_results <> 0%Z.
Proof.
  unfold candidates, reported_total, slice_to.
  destruct (_get_wo_list_httpx (listing w query)) as [|x l].
  - destruct (0 <=? max_results)%Z; rewrite firstn_nil; intros H; contradiction.
  - cbn [length]. destruct (0 <=? max_results)%Z eqn:E.
    + apply Z.leb_le in E. intros H.
      destruct (Z.eq_dec max_results 0) as [-> | Hne]; [contradiction H; reflexivity|].
      lia.
    + apply Z.leb_gt in E. intros _. lia.
Qed.

Lemma process_from_quiet (R : Rounding) (w : World) (c : Config)
  (cb : option Callback) (total : Z) (wos : list str) :
  (forall idx, round_raised R cb total idx = false) ->
  forall idx recs st,
    fst (process_from R w c cb total idx wos (recs, st))
    = recs ++ records_of w c wos.
Proof.
  intros Q. induction wos as [|wo wos IH]; intros idx recs st;
    cbn [process_from records_of flat_map].
  - rewrite app_nil_r. reflexivity.
  - rewrite process_one_eq, Q, IH. fold (records_of w c wos).
    destruct (tiered_result w c wo); rewrite <- ?app_assoc; reflexivity.
Qed.

Lemma records_of_numbers (w : World) (c : Config) (wos : list str) :
  map wo_number (records_of w c wos) = filter (succeeds w c) wos.
Proof.
  induction wos as [|wo wos IH]; simpl; [reflexivity|].
  unfold succeeds at 1. fold (records_of w c wos).
  destruct (tiered_result w c wo) as [p| |] eqn:E; simpl; rewrite IH;
    [|reflexivity|reflexivity].
  destruct (tiered_result_valid _ _ _ E) as [-> _]. reflexivity.
Qed.

(** X6.  Without a progress callback, or with one that never raises, the
    call returns the records of the candidates whose tiered extraction
    returns one, in the order of the listing: the identifiers of the
    output are the candidates that succeed, the others are skipped. *)
Theorem output_in_listing_order (R : Rounding) (w : World) (c : Config)
  (st : State) (query : str) (max_results : Z) (cb : option Callback) :
  cb = None \/ (exists f, cb = Some f /\ forall p m, f p m = false) ->
  fst (search_wipo R w c st query max_results cb)
  = Return (records_of w c (candidates w query max_results))
  /\ map wo_number (records_of w c (candidates w query max_results))
     = filter (succeeds w c) (candidates w query max_results).
Proof.
  intros H. split; [|apply records_of_numbers].
  assert (F : first_call_ok cb = true).
  { destruct H as [-> | [f [-> Hf]]]; [reflexivity|]. simpl. rewrite Hf. reflexivity. }
  rewrite (search_wipo_eq R w c st query max_results cb F). cbn [fst]. f_equal.
  destruct (candidates w query max_results) as [|x l] eqn:E; [reflexivity|].
  rewrite <- E. rewrite process_from_quiet; [reflexivity|].
  apply quiet_callback. destruct H as [-> | H]; [left; reflexivity | right].
  split; [|exact H]. apply candidates_total. rewrite E. discriminate.
Qed.

Lemma output_in_listing_order_witness :
  fst (search_wipo Spec.exact Scenario.two Scenario.crawler Scenario.fresh
         Scenario.query 50 None)
  = Return (records_of Scenario.two Scenario.crawler
              (candidates Scenario.two Scenario.query 50))
  /\ map wo_number (records_of Scenario.two Scenario.crawler
                      (candidates Scenario.two Scenario.query 50))
     = filter (succeeds Scenario.two Scenario.crawler)
         (candidates Scenario.two Scenario.query 50).
Proof.
  apply output_in_listing_order. left. reflexivity.
Defined.

(** X7.  Whatever the callback does, the call returns at most as many
    records as there are candidates, and so at most [max_results] when
    that is not negative. *)
Theorem output_at_most_max (R : Rounding) (w : World) (c : Config)
  (st : State) (query : str) (max_results : Z) (cb : option Callback) :
  (0 <= max_results)%Z ->
  (length (emitted (search_wipo R w c st query max_results cb))
   <= length (candidates w query max_results))%nat
  /\ (Z.of_nat (length (emitted (search_wipo R w c st query max_results cb)))
      <= max_results)%Z.
Proof.
  intros Hmax.
  assert (L : (length (emitted (search_wipo R w c st query max_results cb))
               <= length (candidates w query max_results))%nat).
  { destruct (first_call_ok cb) eqn:F.
    - rewrite (search_wipo_eq R w c st query max_results cb F).
      unfold emitted. cbn [fst].
      destruct (process_from_accounting R w c cb
                  (reported_total w query max_results)
                  (candidates w query max_results) 1 [] (started cb st)) as [A B].
      cbn [length] in A. lia.
    - rewrite (search_wipo_raises R w c st query max_results cb F).
      unfold emitted. simpl. lia. }
  split; [exact L|].
  pose proof (candidates_count w query Hmax) as C.
  unfold reported_total in C. lia.
Qed.

Lemma output_at_most_max_witness :
  (length (emitted (search_wipo Spec.exact Scenario.five Scenario.crawler
                      Scenario.fresh Scenario.query 3 None))
   <= length (candidates Scenario.five Scenario.query 3))%nat
  /\ (Z.of_nat (length (emitted (search_wipo Spec.exact Scenario.five
                                   Scenario.crawler Scenario.fresh
                                   Scenario.query 3 None)))
      <= 3)%Z.
Proof.
  apply output_at_most_max. lia.
Defined.

(** X8.  When there is no candidate (the listing request raises or is
    answered with a status other than 200, or [max_results] is 0) the call
    returns the empty list, calls no tier and leaves the statistics as
    they were; the only trace is the first progress report. *)
Theorem no_candidates_no_work (R : Rounding) (w : World) (c : Config)
  (st : State) (query : str) (max_results : Z) (cb : option Callback) :
  listing w query = Listing_raises
  \/ (exists code elems,
         listing w query = Listing_response code elems /\ code <> 200%Z)
  \/ max_results = 0%Z ->
  first_call_ok cb = true ->
  search_wipo R w c st query max_results cb = (Return [], started cb st)
  /\ stats (started cb st) = stats st.
Proof.
  intros H F.
  assert (E : candidates w query max_results = []).
  { unfold candidates.
    destruct H as [H | [[code [elems [H Hc]]] | ->]].
    - rewrite H. simpl. unfold slice_to.
      destruct (0 <=? max_results)%Z; apply firstn_nil.
    - rewrite H. simpl. apply Z.eqb_neq in Hc. rewrite Hc. simpl.
      unfold slice_to. destruct (0 <=? max_results)%Z; apply firstn_nil.
    - reflexivity. }
  rewrite (search_wipo_eq R w c st query max_results cb F), E. simpl.
  split; [reflexivity | destruct cb; reflexivity].
Qed.

Lemma no_candidates_no_work_witness :
  search_wipo Spec.exact Scenario.two Scenario.crawler Scenario.fresh
    Scenario.query 0 None
  = (Return [], started None Scenario.fresh)
  /\ stats (started None Scenario.fresh) = stats Scenario.fresh.
Proof.
  apply no_candidates_no_work; [right; right; reflexivity | reflexivity].
Defined.

Lemma tiered_method (w : World) (c : Config) (wo : str) (p : patent)
  (s : WIPOStats) :
  tiered_result w c wo = Return p ->
  (extraction_method p = STATIC_HTTPX /\ tiered_stats w c wo s = bump_static s)
  \/ (extraction_method p = DIRECT_PLAYWRIGHT
      /\ tiered_stats w c wo s = bump_direct s).
Proof.
  unfold tiered_result, tiered_stats, _extract_patent_tiered.
  destruct (_extract_static_httpx w c wo) as [p1| |] eqn:E1; simpl;
    try discriminate.
  - intros H. injection H as <-. left. split; [|reflexivity].
    apply static_valid in E1. tauto.
  - destruct (use_playwright c); simpl; [|discriminate].
    destruct (_extract_direct_playwright w c wo) as [p2| |] eqn:E2; simpl;
      try discriminate.
    intros H. injection H as <-. right. split; [|reflexivity].
    apply direct_valid in E2. tauto.
Qed.

Lemma process_from_methods (R : Rounding) (w : World) (c : Config)
  (cb : option Callback) (total : Z) (wos : list str) :
  forall idx recs st,
    (static_success (stats (snd (process_from R w c cb total idx wos (recs, st))))
     - Z.of_nat (length (filter (by_method STATIC_HTTPX)
                           (fst (process_from R w c cb total idx wos (recs, st)))))
     = static_success (stats st)
       - Z.of_nat (length (filter (by_method STATIC_HTTPX) recs)))%Z
    /\ (direct_success (stats (snd (process_from R w c cb total idx wos (recs, st))))
        - Z.of_nat (length (filter (by_method DIRECT_PLAYWRIGHT)
                              (fst (process_from R w c cb total idx wos (recs, st)))))
        = direct_success (stats st)
          - Z.of_nat (length (filter (by_method DIRECT_PLAYWRIGHT) recs)))%Z
    /\ interactive_success (stats (snd (process_from R w c cb total idx wos (recs, st))))
       = interactive_success (stats st).
Proof.
  induction wos as [|wo wos IH]; intros idx recs st; cbn [process_from].
  - repeat split; reflexivity.
  - rewrite process_one_eq. destruct (round_raised R cb total idx).
    + specialize (IH (idx + 1)%Z recs
                    {| stats := bump_failures (stats st);
                       trace := trace st ++ round_calls R cb total idx |}).
      exact IH.
    + destruct (tiered_result w c wo) as [p| |] eqn:E.
      * match goal with
        | |- context [process_from _ _ _ _ _ _ _ (?r, ?s)] =>
            specialize (IH (idx + 1)%Z r s)
        end.
        destruct IH as [I1 [I2 I3]]. rewrite I1, I2, I3. cbn [stats].
        rewrite !filter_app, !length_app. cbn [filter].
        destruct (tiered_method w c wo (stats st) E) as [[M ->] | [M ->]];
          unfold by_method; rewrite M; cbn [length static_success
            direct_success interactive_success bump_static bump_direct];
          repeat split; lia.
      * match goal with
        | |- context [process_from _ _ _ _ _ _ _ (?r, ?s)] =>
            specialize (IH (idx + 1)%Z r s)
        end.
        exact IH.
      * match goal with
        | |- context [process_from _ _ _ _ _ _ _ (?r, ?s)] =>
            specialize (IH (idx + 1)%Z r s)
        end.
        exact IH.
Qed.

Lemma emitted_methods (R : Rounding) (w : World) (c : Config) (st : State)
  (query : str) (max_results : Z) (cb : option Callback) :
  Forall (fun p => extraction_method p = STATIC_HTTPX
                   \/ extraction_method p = DIRECT_PLAYWRIGHT)
    (emitted (search_wipo R w c st query max_results cb)).
Proof.
  pose proof (emitted_records R w c st query max_results cb) as H.
  rewrite Forall_forall in *. intros p Hp. specialize (H p Hp).
  destruct (tiered_method w c (wo_number p) Stats.init H) as [[M _] | [M _]]; auto.
Qed.

Lemma run_counters (R : Rounding) (w : World) (c : Config)
  (st : State) (query : str) (max_results : Z) (cb : option Callback) :
  static_success (stats (snd (search_wipo R w c st query max_results cb)))
  = (static_success (stats st)
     + Z.of_nat (length (filter (by_method STATIC_HTTPX)
                           (emitted (search_wipo R w c st query max_results cb)))))%Z
  /\ direct_success (stats (snd (search_wipo R w c st query max_results cb)))
     = (direct_success (stats st)
        + Z.of_nat (length (filter (by_method DIRECT_PLAYWRIGHT)
                              (emitted (search_wipo R w c st query max_results cb)))))%Z
  /\ interactive_success (stats (snd (search_wipo R w c st query max_results cb)))
     = interactive_success (stats st).
Proof.
  destruct (first_call_ok cb) eqn:F.
  - rewrite (search_wipo_eq R w c st query max_results cb F).
    unfold emitted. cbn [fst snd].
    destruct (process_from_methods R w c cb (reported_total w query max_results)
                (candidates w query max_results) 1 [] (started cb st))
      as [I1 [I2 I3]].
    assert (S : stats (started cb st) = stats st) by (destruct cb; reflexivity).
    rewrite S in I1, I2, I3. cbn [filter length] in I1, I2.
    rewrite I3. repeat split; lia.
  - rewrite (search_wipo_raises R w c st query max_results cb F).
    unfold emitted. cbn [fst snd log stats filter length].
    repeat split; lia.
Qed.

(** X9.  After a call each success counter has grown by the number of
    records the call returns with that extraction method: tier-1 records
    for [static_success], tier-2 records for [direct_success]; every
    record carries one of these two methods, and [interactive_success]
    never changes. *)
Theorem success_counters_match_records (R : Rounding) (w : World) (c : Config)
  (st : State) (query : str) (max_results : Z) (cb : option Callback) :
  static_success (stats (snd (search_wipo R w c st query max_results cb)))
  = (static_success (stats st)
     + Z.of_nat (length (filter (by_method STATIC_HTTPX)
                           (emitted (search_wipo R w c st query max_results cb)))))%Z
  /\ direct_success (stats (snd (search_wipo R w c st query max_results cb)))
     = (direct_success (stats st)
        + Z.of_nat (length (filter (by_method DIRECT_PLAYWRIGHT)
                              (emitted (search_wipo R w c st query max_results cb)))))%Z
  /\ interactive_success (stats (snd (search_wipo R w c st query max_results cb)))
     = interactive_success (stats st)
  /\ Forall (fun p => extraction_method p = STATIC_HTTPX
                      \/ extraction_method p = DIRECT_PLAYWRIGHT)
       (emitted (search_wipo R w c st query max_results cb)).
Proof.
  destruct (run_counters R w c st query max_results cb) as [S1 [S2 S3]].
  repeat split; try assumption. apply emitted_methods.
Qed.

Lemma methods_split (l : list patent) :
  Forall (fun p => extraction_method p = STATIC_HTTPX
                   \/ extraction_method p = DIRECT_PLAYWRIGHT) l ->
  (length (filter (by_method STATIC_HTTPX) l)
   + length (filter (by_method DIRECT_PLAYWRIGHT) l) = length l)%nat.
Proof.
  induction 1 as [|p l [M | M] _ IH]; [reflexivity| |]; cbn [filter].
  - assert (B1 : by_method STATIC_HTTPX p = true)
      by (unfold by_method; rewrite M; reflexivity).
    assert (B2 : by_method DIRECT_PLAYWRIGHT p = false)
      by (unfold by_method; rewrite M; reflexivity).
    rewrite B1, B2. cbn [length]. lia.
  - assert (B1 : by_method STATIC_HTTPX p = false)
      by (unfold by_method; rewrite M; reflexivity).
    assert (B2 : by_method DIRECT_PLAYWRIGHT p = true)
      by (unfold by_method; rewrite M; reflexivity).
    rewrite B1, B2. cbn [length]. lia.
Qed.

(** X10.  The success rate after a call of [search_wipo_patents] whose
    first progress report does not raise and that has candidates is the
    share of the candidates that gave a record, times 100, in floating
    point: (records / candidates) * 100. *)
Theorem success_rate_of_run (R : Rounding) (w : World) (molecule : str)
  (dev_codes : option (list str)) (cas : option str) (max_results : Z)
  (key : option str) (cb : option Callback) :
  first_call_ok cb = true ->
  candidates w (build_query molecule dev_codes cas) max_results <> [] ->
  success_rate R
    (stats (snd (search_wipo_patents R w molecule dev_codes cas max_results key cb)))
  = float_mul_int R
      (int_truediv R
         (Z.of_nat (length (emitted (search_wipo_patents R w molecule dev_codes
                                       cas max_results key cb))))
         (Z.of_nat (length (candidates w (build_query molecule dev_codes cas)
                              max_results))))
      100.
Proof.
  intros F N. unfold search_wipo_patents.
  set (c := {| use_playwright := true; groq_api_key := key |}).
  set (st := {| stats := Stats.init; trace := [] |}).
  set (q := build_query molecule dev_codes cas) in *.
  destruct (run_counters R w c st q max_results cb) as [S1 [S2 S3]].
  pose proof (methods_split (emitted_methods R w c st q max_results cb)) as M.
  assert (A : (Z.of_nat (length (emitted (search_wipo R w c st q max_results cb)))
               + failures (stats (snd (search_wipo R w c st q max_results cb)))
               = Z.of_nat (length (candidates w q max_results)))%Z).
  { rewrite (search_wipo_eq R w c st q max_results cb F). unfold emitted.
    cbn [fst snd].
    destruct (process_from_accounting R w c cb (reported_total w q max_results)
                (candidates w q max_results) 1 [] (started cb st)) as [A _].
    rewrite A. cbn [length].
    assert (stats (started cb st) = stats st) as -> by (destruct cb; reflexivity).
    subst st. simpl. lia. }
  assert (L : (0 < length (candidates w q max_results))%nat).
  { destruct (candidates w q max_results); [contradiction N; reflexivity | simpl; lia]. }
  subst st. cbn [stats Stats.init static_success direct_success
                 interactive_success] in S1, S2, S3.
  unfold success_rate, total. rewrite S1, S2, S3.
  match goal with
  | |- (if (?t =? 0)%Z then _ else _) = _ =>
      assert (T : t = Z.of_nat (length (candidates w q max_results))) by lia
  end.
  rewrite T.
  destruct (Z.of_nat (length (candidates w q max_results)) =? 0)%Z eqn:E;
    [apply Z.eqb_eq in E; lia|].
  do 2 f_equal. lia.
Qed.

Lemma success_rate_of_run_witness :
  success_rate Spec.exact
    (stats (snd (search_wipo_patents Spec.exact Scenario.two (lit "darolutamide")
                   None None 50 None None)))
  = float_mul_int Spec.exact
      (int_truediv Spec.exact
         (Z.of_nat (length (emitted (search_wipo_patents Spec.exact Scenario.two
                                       (lit "darolutamide") None None 50 None None))))
         (Z.of_nat (length (candidates Scenario.two
                              (build_query (lit "darolutamide") None None) 50))))
      100.
Proof.
  apply success_rate_of_run; [reflexivity | vm_compute; discriminate].
Defined.

Lemma eqb_sym_text (a b : str) : eqb a b = eqb b a.
Proof.
  destruct (eqb a b) eqn:E.
  - apply eqb_eq in E. subst. symmetry. apply eqb_refl.
  - symmetry. apply eqb_neq. apply eqb_neq in E. congruence.
Qed.

Lemma process_from_tier_calls (R : Rounding) (w : World) (c : Config)
  (cb : option Callback) (total : Z) (wo' : str) (wos : list str) :
  (forall idx, round_raised R cb total idx = false) ->
  forall idx recs st,
    tiers_of wo' (trace (snd (process_from R w c cb total idx wos (recs, st))))
    = tiers_of wo' (trace st)
      ++ flat_map (fun wo => if eqb wo wo' then tiers_run w c wo else []) wos.
Proof.
  intros Q. induction wos as [|wo wos IH]; intros idx recs st;
    cbn [process_from flat_map].
  - rewrite app_nil_r. reflexivity.
  - rewrite process_one_eq, Q, IH. cbn [trace].
    rewrite !tiers_of_app, tiers_of_round_calls, tiers_of_tier_calls.
    cbn [app]. rewrite <- app_assoc. reflexivity.
Qed.

Lemma tier_calls_of_distinct (w : World) (c : Config) (wo' : str) (wos : list str) :
  NoDup wos ->
  flat_map (fun wo => if eqb wo wo' then tiers_run w c wo else []) wos
  = if str_in wo' wos then tiers_run w c wo' else [].
Proof.
  induction 1 as [|wo wos Hn N IH]; cbn [flat_map]; [reflexivity|].
  rewrite IH. unfold str_in. cbn [existsb]. fold (str_in wo' wos).
  rewrite (eqb_sym_text wo' wo).
  destruct (eqb wo wo') eqn:E.
  - apply eqb_eq in E. subst wo'.
    assert (S : str_in wo wos = false).
    { destruct (str_in wo wos) eqn:S; [|reflexivity].
      apply str_in_In in S. contradiction. }
    rewrite S, app_nil_r. reflexivity.
  - reflexivity.
Qed.

(** X11.  In a run without a raising callback that starts on a trace with
    no call for an identifier: for a candidate, tier 1 is called exactly
    once, and tier 2 is called (once, after it) exactly when tier 1 ended
    with an extraction error and the renderer is on, so never after a
    transport exception of tier 1 and never with the renderer off; for an
    identifier that is no candidate no tier is called. *)
Theorem tiers_called_per_candidate (R : Rounding) (w : World) (c : Config)
  (st : State) (query : str) (max_results : Z) (cb : option Callback)
  (wo : str) :
  cb = None \/ (exists f, cb = Some f /\ forall p m, f p m = false) ->
  tiers_of wo (trace st) = [] ->
  (In wo (candidates w query max_results) ->
   (tiers_of wo (trace (snd (search_wipo R w c st query max_results cb))) = [1%nat]
    \/ tiers_of wo (trace (snd (search_wipo R w c st query max_results cb)))
       = [1; 2]%nat)
   /\ (tiers_of wo (trace (snd (search_wipo R w c st query max_results cb)))
       = [1; 2]%nat
       <-> _extract_static_httpx w c wo = Raise_extraction
           /\ use_playwright c = true))
  /\ (~ In wo (candidates w query max_results) ->
      tiers_of wo (trace (snd (search_wipo R w c st query max_results cb))) = []).
Proof.
  intros H T0.
  assert (F : first_call_ok cb = true).
  { destruct H as [-> | [f [-> Hf]]]; [reflexivity|]. simpl. rewrite Hf. reflexivity. }
  assert (T : tiers_of wo (trace (snd (search_wipo R w c st query max_results cb)))
              = if str_in wo (candidates w query max_results)
                then tiers_run w c wo else []).
  { rewrite (search_wipo_eq R w c st query max_results cb F). cbn [snd].
    destruct (candidates w query max_results) as [|x l] eqn:E.
    - simpl. destruct cb; [|exact T0]. simpl. rewrite tiers_of_app, T0. reflexivity.
    - rewrite <- E. rewrite process_from_tier_calls.
      + rewrite (tier_calls_of_distinct w c wo (candidates_NoDup w query max_results)).
        assert (tiers_of wo (trace (started cb st)) = []) as ->; [|reflexivity].
        destruct cb; [|exact T0]. simpl. rewrite tiers_of_app, T0. reflexivity.
      + apply quiet_callback. destruct H as [-> | H]; [left; reflexivity | right].
        split; [|exact H]. apply candidates_total. rewrite E. discriminate. }
  rewrite T. split.
  - intros Hin. apply str_in_In in Hin. rewrite Hin.
    destruct (tiers_run_cases w c wo) as [[-> H1] | [-> [H1 H2]]].
    + split; [left; reflexivity|]. split; [discriminate|].
      intros [E U]. rewrite (H1 E) in U. discriminate.
    + split; [right; reflexivity|]. split; auto.
  - intros Hn. destruct (str_in wo (candidates w query max_results)) eqn:S;
      [|reflexivity].
    apply str_in_In in S. contradiction.
Qed.

Lemma tiers_called_per_candidate_witness :
  (In (lit "WO2022049075") (candidates Scenario.two Scenario.query 50) ->
   (tiers_of (lit "WO2022049075")
      (trace (snd (search_wipo Spec.exact Scenario.two Scenario.crawler
                     Scenario.fresh Scenario.query 50 None))) = [1%nat]
    \/ tiers_of (lit "WO2022049075")
         (trace (snd (search_wipo Spec.exact Scenario.two Scenario.crawler
                        Scenario.fresh Scenario.query 50 None))) = [1; 2]%nat)
   /\ (tiers_of (lit "WO2022049075")
         (trace (snd (search_wipo Spec.exact Scenario.two Scenario.crawler
                        Scenario.fresh Scenario.query 50 None))) = [1; 2]%nat
       <-> _extract_static_httpx Scenario.two Scenario.crawler (lit "WO2022049075")
           = Raise_extraction
           /\ use_playwright Scenario.crawler = true))
  /\ (~ In (lit "WO2022049075") (candidates Scenario.two Scenario.query 50) ->
      tiers_of (lit "WO2022049075")
        (trace (snd (search_wipo Spec.exact Scenario.two Scenario.crawler
                       Scenario.fresh Scenario.query 50 None))) = []).
Proof.
  apply tiers_called_per_candidate; [left; reflexivity | reflexivity].
Defined.

(** ** The third variant's pipeline and the first crawler's loop *)

Lemma v3_fold (B : Type) (detail : str -> option B) (wos : list str) :
  forall results success failures,
    map (@v3_wo_number B)
      (fst (fst (fold_left (v3_round detail) wos (results, success, failures))))
    = map (@v3_wo_number B) results ++ filter (has_detail detail) wos
    /\ snd (fst (fold_left (v3_round detail) wos (results, success, failures)))
       = (success + Z.of_nat (length (filter (has_detail detail) wos)))%Z
    /\ (snd (fst (fold_left (v3_round detail) wos (results, success, failures)))
        + snd (fold_left (v3_round detail) wos (results, success, failures))
        = success + failures + Z.of_nat (length wos))%Z
    /\ (Forall (fun r => detail (v3_wo_number r) = Some (v3_biblio_data r)) results ->
        Forall (fun r => detail (v3_wo_number r) = Some (v3_biblio_data r))
          (fst (fst (fold_left (v3_round detail) wos (results, success, failures))))).
Proof.
  induction wos as [|wo wos IH]; intros results success failures;
    cbn [fold_left filter length].
  - cbn [fst snd]. rewrite app_nil_r. repeat split; auto; lia.
  - destruct (detail wo) as [b|] eqn:D.
    + assert (Hd : has_detail detail wo = true)
        by (unfold has_detail; rewrite D; reflexivity).
      assert (Hr : v3_round detail (results, success, failures) wo
                   = (results ++ [{| v3_wo_number := wo; v3_source := lit "WIPO";
                                     v3_biblio_data := b |}],
                      (success + 1)%Z, failures))
        by (unfold v3_round; rewrite D; reflexivity).
      rewrite Hd, Hr.
      destruct (IH (results ++ [{| v3_wo_number := wo; v3_source := lit "WIPO";
                                   v3_biblio_data := b |}])
                  (success + 1)%Z failures) as [I1 [I2 [I3 I4]]].
      split; [|split; [|split]].
      * rewrite I1, map_app, <- app_assoc. reflexivity.
      * rewrite I2. cbn [length]. lia.
      * rewrite I3. lia.
      * intros F. apply I4. apply Forall_app. split; [exact F|].
        constructor; [exact D | constructor].
    + assert (Hd : has_detail detail wo = false)
        by (unfold has_detail; rewrite D; reflexivity).
      assert (Hr : v3_round detail (results, success, failures) wo
                   = (results, success, (failures + 1)%Z))
        by (unfold v3_round; rewrite D; reflexivity).
      rewrite Hd, Hr.
      destruct (IH results success (failures + 1)%Z) as [I1 [I2 [I3 I4]]].
      split; [|split; [|split]].
      * exact I1.
      * exact I2.
      * rewrite I3. lia.
      * exact I4.
Qed.

(** X12.  The third variant's pipeline: when the listing request fails the
    whole call raises; otherwise the records are those of the listed
    identifiers whose detail page could be fetched and parsed, in the order
    of the listing and without repetition, each with the parse of its own
    page; [success] counts the records and [success + failures] the listed
    identifiers. *)
Theorem v3_pipeline_accounting (B : Type) (detail : str -> option B)
  (max_results : Z) :
  v3_search_wipo_patents None detail max_results = None
  /\ (forall hrefs,
         exists wos results success failures,
           v3_search_wipo (Some hrefs) max_results = Some wos
           /\ v3_search_wipo_patents (Some hrefs) detail max_results
              = Some (results, success, failures)
           /\ map (@v3_wo_number B) results = filter (has_detail detail) wos
           /\ NoDup (map (@v3_wo_number B) results)
           /\ Forall (fun r => detail (v3_wo_number r) = Some (v3_biblio_data r))
                results
           /\ success = Z.of_nat (length results)
           /\ (success + failures = Z.of_nat (length wos))%Z).
Proof.
  split; [reflexivity|]. intros hrefs.
  unfold v3_search_wipo_patents. cbn [v3_search_wipo].
  set (wos := slice_to (fromkeys (fold_left v3_step hrefs [])) max_results).
  destruct (v3_fold detail wos [] 0%Z 0%Z) as [I1 [I2 [I3 I4]]].
  destruct (fold_left (v3_round detail) wos ([], 0%Z, 0%Z))
    as [[results success] failures] eqn:E.
  cbn [fst snd map app] in I1, I2, I3, I4.
  exists wos, results, success, failures.
  split; [reflexivity|]. split; [reflexivity|]. split; [exact I1|].
  split; [|split; [apply I4; constructor | split]].
  - rewrite I1. apply NoDup_filter. subst wos. apply slice_to_NoDup.
    rewrite fromkeys_first_occurrences. apply first_occurrences_NoDup.
  - rewrite I2. apply (f_equal (@length str)) in I1. rewrite length_map in I1.
    lia.
  - lia.
Qed.

Lemma v1_process_from_none (A : Type) (R : Rounding) (w : V1.World A)
  (total : Z) (wos : list str) :
  forall idx recs calls,
    V1.process_from R w None total idx wos (recs, calls)
    = (recs ++ flat_map (fun wo => option_list (V1.patent_data w wo)) wos, calls).
Proof.
  induction wos as [|wo wos IH]; intros idx recs calls;
    cbn [V1.process_from flat_map].
  - rewrite app_nil_r. reflexivity.
  - rewrite v1_process_one_eq, IH. cbn [V1.round_raised]. rewrite app_nil_r.
    destruct (V1.patent_data w wo); cbn [option_list];
      rewrite <- ?app_assoc; reflexivity.
Qed.

Lemma v1_process_from_length (A : Type) (R : Rounding) (w : V1.World A)
  (cb : option V1.Callback) (total : Z) (wos : list str) :
  forall idx recs calls,
    (length (fst (V1.process_from R w cb total idx wos (recs, calls)))
     <= length recs + length wos)%nat.
Proof.
  induction wos as [|wo wos IH]; intros idx recs calls; cbn [V1.process_from].
  - cbn [fst length]. lia.
  - rewrite v1_process_one_eq.
    match goal with
    | |- context [V1.process_from _ _ _ _ _ _ (?r, ?s)] =>
        specialize (IH (idx + 1)%Z r s);
        assert (L : (length r <= length recs + 1)%nat)
    end.
    { destruct (V1.round_raised R cb total idx); [lia|].
      destruct (V1.patent_data w wo); [rewrite length_app; simpl; lia | lia]. }
    cbn [length]. lia.
Qed.

(** X13.  The first crawler's search: when the navigation to the result
    page raises it returns no record and calls no callback; without a
    callback it returns the data of the listed numbers, cut at
    [max_results], in order, the failed ones left out; with any callback
    it returns at most as many records as numbers it iterates over. *)
Theorem v1_search_output (A : Type) (R : Rounding) (w : V1.World A)
  (max_results : Z) (cb : option V1.Callback) :
  (V1.goto_raises w = true -> V1.search_wipo R w max_results cb = ([], []))
  /\ (V1.goto_raises w = false ->
      fst (V1.search_wipo R w max_results None)
      = flat_map (fun wo => option_list (V1.patent_data w wo))
          (slice_to (V1.wo_numbers w) max_results))
  /\ (length (fst (V1.search_wipo R w max_results cb))
      <= length (slice_to (V1.wo_numbers w) max_results))%nat.
Proof.
  split; [|split].
  - intros G. unfold V1.search_wipo. rewrite G. reflexivity.
  - intros G. unfold V1.search_wipo. rewrite G.
    rewrite v1_process_from_none. reflexivity.
  - unfold V1.search_wipo. destruct (V1.goto_raises w); [simpl; lia|].
    destruct cb as [f|].
    + destruct (f 5%Z (V1.Found (Z.of_nat (length (V1.wo_numbers w)))));
        [simpl; lia|].
      pose proof (v1_process_from_length R w (Some f)
                    (Z.of_nat (length (V1.wo_numbers w)))
                    (slice_to (V1.wo_numbers w) max_results) 1 []
                    [(5%Z, V1.Found (Z.of_nat (length (V1.wo_numbers w))))]) as L.
      cbn [length] in L. lia.
    + pose proof (v1_process_from_length R w None
                    (Z.of_nat (length (V1.wo_numbers w)))
                    (slice_to (V1.wo_numbers w) max_results) 1 [] []) as L.
      cbn [length] in L. lia.
Qed.

(** ** More on the parse and the semantic fallback *)

(** X14.  Whatever the page and the service give, a parse holds at most 10
    applicants, at most 10 inventors and an abstract of at most 1000
    characters. *)
Theorem parse_caps (service : Groq) (key : option str) (d : Document) :
  (length (applicants (_parse_biblio_robust service key d)) <= 10)%nat
  /\ (length (inventors (_parse_biblio_robust service key d)) <= 10)%nat
  /\ (length (abstract (_parse_biblio_robust service key d)) <= 1000)%nat.
Proof.
  split; [|split].
  - rewrite parse_applicants. apply firstn_le_length.
  - cbn [_parse_biblio_robust inventors]. apply firstn_le_length.
  - cbn [_parse_biblio_robust abstract].
    destruct (truthy (dom_abstract d)); [apply firstn_le_length | simpl; lia].
Qed.

Lemma lstrip_keeps (x t : str) (c : ascii) :
  isspace c = false -> exists y, lstrip (x ++ c :: t) = y ++ c :: t.
Proof.
  intros C. induction x as [|a x [y IH]]; simpl.
  - rewrite C. exists []. reflexivity.
  - destruct (isspace a); [exists y; exact IH | exists (a :: x); reflexivity].
Qed.

(** Trimming keeps a pair of neighbours that are no white space. *)
Lemma strip_keeps_pair (pre post : str) (a b : ascii) :
  isspace a = false -> isspace b = false ->
  exists y z, strip (pre ++ a :: b :: post) = y ++ a :: b :: z.
Proof.
  intros A B. unfold strip, rstrip.
  destruct (@lstrip_keeps pre (b :: post) a A) as [y ->].
  rewrite rev_app_distr. cbn [rev]. rewrite <- !app_assoc. cbn [app].
  destruct (@lstrip_keeps (rev post) (a :: rev y) b B) as [z ->].
  exists y, (rev z). rewrite rev_app_distr. cbn [rev].
  rewrite rev_involutive, <- !app_assoc. reflexivity.
Qed.

Lemma strip_keeps_prefix_WO (s : str) :
  startswith s (lit "WO") = true -> startswith (strip s) (lit "WO") = true.
Proof.
  intros H. apply startswith_app in H as [r ->]. cbn [lit list_ascii_of_string app].
  unfold strip. cbn [lstrip]. change (isspace "W") with false. cbv iota.
  unfold rstrip. cbn [rev]. rewrite <- !app_assoc. cbn [app].
  destruct (@lstrip_keeps (rev r) ["W"%char] "O"%char eq_refl) as [z ->].
  rewrite rev_app_distr. reflexivity.
Qed.

Lemma publication_number_verdict (value : str) :
  looks_wrong value (lit "publication_number")
  = negb (startswith (strip value) (lit "WO")).
Proof.
  unfold looks_wrong.
  destruct (truthy value) eqn:Tv.
  - destruct (truthy (strip value)) eqn:Ts; cbn [negb orb].
    + destruct (str_in (lower (strip value)) invalid_patterns) eqn:N.
      * rewrite (noise_lacks_prefix _ N). reflexivity.
      * assert (E1 : eqb (lit "publication_number") (lit "title") = false) by reflexivity.
        assert (E2 : eqb (lit "publication_number") (lit "ipc") = false) by reflexivity.
        rewrite E1, E2, eqb_refl.
        destruct (startswith (strip value) (lit "WO")); reflexivity.
    + apply truthy_nil in Ts. rewrite Ts. reflexivity.
  - apply truthy_nil in Tv. subst value. reflexivity.
Qed.

Lemma wo_pattern_prefix (s g : str) :
  wo_pattern_at s = Some g -> startswith g (lit "WO") = true.
Proof.
  unfold wo_pattern_at. destruct (startswith s (lit "WO")); [|discriminate].
  destruct (optional_sep (skipn 2 s)) as [sep1 r1].
  destruct (digits_exactly 4 r1) as [[year r2]|]; [|discriminate].
  destruct (optional_sep r2) as [sep2 r3].
  destruct (digits_exactly 6 r3) as [[serial r4]|]; [|discriminate].
  intros H. injection H as <-. reflexivity.
Qed.

Lemma parse_publication_number (service : Groq) (key : option str) (d : Document) :
  publication_number (_parse_biblio_robust service key d)
  = if looks_wrong (dom_publication_number d) (lit "publication_number") then
      match re_find wo_pattern_at (html d) with
      | Some g => remove_char " "%char (remove_char "/"%char g)
      | None => dom_publication_number d
      end
    else dom_publication_number d.
Proof. reflexivity. Qed.

(** X15.  The publication number of a parse is the structural one, or,
    when the validator reports that one wrong, a number found in the
    markup with its [/] and blanks removed, and this one the validator
    accepts. *)
Theorem publication_number_recovered (service : Groq) (key : option str)
  (d : Document) :
  publication_number (_parse_biblio_robust service key d)
  = dom_publication_number d
  \/ (looks_wrong (dom_publication_number d) (lit "publication_number") = true
      /\ looks_wrong (publication_number (_parse_biblio_robust service key d))
           (lit "publication_number") = false
      /\ ~ In "/"%char (publication_number (_parse_biblio_robust service key d))
      /\ ~ In " "%char (publication_number (_parse_biblio_robust service key d))
      /\ exists g, re_find wo_pattern_at (html d) = Some g
           /\ publication_number (_parse_biblio_robust service key d)
              = remove_char " "%char (remove_char "/"%char g)).
Proof.
  rewrite parse_publication_number.
  destruct (looks_wrong (dom_publication_number d) (lit "publication_number")) eqn:W;
    [|left; reflexivity].
  destruct (re_find wo_pattern_at (html d)) as [g|] eqn:E; [|left; reflexivity].
  right. split; [reflexivity|].
  apply re_find_at in E as [pre [t [_ E]]]. apply wo_pattern_prefix in E.
  apply startswith_app in E as [r ->]. split; [|split; [|split]].
  - rewrite publication_number_verdict. apply negb_false_iff.
    apply strip_keeps_prefix_WO. reflexivity.
  - unfold remove_char. intros H. apply filter_In in H as [H _].
    apply filter_In in H as [_ H]. discriminate H.
  - unfold remove_char. intros H. apply filter_In in H as [_ H]. discriminate H.
  - exists (lit "WO" ++ r). split; reflexivity.
Qed.

(** X16.  When the validator accepts the structural title and IPC codes
    and the structural applicants are not suspect (two or more, or one the
    validator accepts), the parse does not depend on the service or on the
    key: it is the parse with no service at all. *)
Theorem parse_without_service (service : Groq) (key : option str) (d : Document) :
  looks_wrong (dom_title d) (lit "title") = false ->
  applicants_suspect d = false ->
  looks_wrong (dom_ipc d) (lit "ipc") = false ->
  _parse_biblio_robust service key d
  = _parse_biblio_robust Scenario.silent None d.
Proof.
  intros T A I. unfold _parse_biblio_robust.
  unfold applicants_suspect in A. rewrite T, A, I. reflexivity.
Qed.

Lemma parse_without_service_witness :
  _parse_biblio_robust Scenario.groq_x (Some (lit "key"))
    {| html := []; dom_title := lit "Crystalline forms of a compound";
       dom_publication_number := lit "WO2022049075";
       dom_applicants := [lit "Orion Corporation"]; dom_inventors := [];
       dom_ipc := lit "A61K 9/14"; dom_cpc := []; dom_filing_date := [];
       dom_publication_date := []; dom_abstract := [] |}
  = _parse_biblio_robust Scenario.silent None
      {| html := []; dom_title := lit "Crystalline forms of a compound";
         dom_publication_number := lit "WO2022049075";
         dom_applicants := [lit "Orion Corporation"]; dom_inventors := [];
         dom_ipc := lit "A61K 9/14"; dom_cpc := []; dom_filing_date := [];
         dom_publication_date := []; dom_abstract := [] |}.
Proof.
  apply parse_without_service; reflexivity.
Defined.

(** X17.  Only the first 4000 characters of the markup reach the service:
    the answer for a markup is the answer for its first 4000 characters,
    and two markups that agree on them get the same answer; an answer is
    always trimmed. *)
Theorem groq_reads_a_prefix (service : Groq) (html field_name : str)
  (key : option str) :
  groq_extract_field service (firstn 4000 html) field_name key
  = groq_extract_field service html field_name key
  /\ (forall html',
         firstn 4000 html' = firstn 4000 html ->
         groq_extract_field service html' field_name key
         = groq_extract_field service html field_name key)
  /\ (forall r,
         groq_extract_field service html field_name key = Some r -> strip r = r).
Proof.
  split; [|split].
  - unfold groq_extract_field. rewrite firstn_firstn. reflexivity.
  - intros html' E. unfold groq_extract_field. rewrite E. reflexivity.
  - intros r. unfold groq_extract_field. destruct key as [k|]; [|discriminate].
    destruct (negb (truthy k)); [discriminate|].
    destruct (service (firstn 4000 html) field_name); [|discriminate].
    intros H. injection H as <-. apply strip_idem.
Qed.

(** ** Structural extraction of list fields and of the abstract *)

Lemma list_item_entry (label_text elem text : str) :
  list_item label_text elem = Some text -> list_entry label_text elem text.
Proof.
  unfold list_item, list_entry.
  destruct (truthy (strip elem)
            && negb (eqb (lower (strip elem)) (lower label_text))
            && (2 <? length (strip elem))%nat) eqn:C; [|discriminate].
  destruct (negb (existsb (fun ui => contains ui (lower (strip elem))) ui_words))
    eqn:U; [|discriminate].
  intros H. injection H as <-.
  apply andb_true_iff in C as [C L]. apply andb_true_iff in C as [_ N].
  apply Nat.ltb_lt in L. apply negb_true_iff in N, U. apply eqb_neq in N.
  split; [reflexivity|]. split; [lia|]. split; [exact N|].
  intros ui Hui. destruct (contains ui (lower (strip elem))) eqn:E; [|reflexivity].
  assert (existsb (fun ui => contains ui (lower (strip elem))) ui_words = true).
  { apply existsb_exists. exists ui. auto. }
  congruence.
Qed.

Lemma fold_item_step (label_text : str) (descendants items : list str) :
  fold_left (item_step label_text) descendants items
  = items ++ flat_map (fun e => option_list (list_item label_text e)) descendants.
Proof.
  revert items; induction descendants as [|e l IH]; intros items; simpl.
  - rewrite app_nil_r. reflexivity.
  - rewrite IH. unfold item_step. destruct (list_item label_text e); simpl.
    + rewrite <- app_assoc. reflexivity.
    + reflexivity.
Qed.

Lemma section_items_eq (label_text : str) (descendants : list str) :
  section_items label_text descendants
  = first_occurrences
      (flat_map (fun e => option_list (list_item label_text e)) descendants).
Proof.
  unfold section_items. rewrite fold_item_step. cbn [app].
  change (fold_left unique_step) with (fold_left dict_add).
  apply fromkeys_first_occurrences.
Qed.

Lemma section_items_entries (label_text : str) (descendants : list str) (text : str) :
  In text (section_items label_text descendants) ->
  exists elem, In elem descendants /\ list_entry label_text elem text.
Proof.
  rewrite section_items_eq. intros H.
  apply (proj1 (first_occurrences_In _ _)) in H.
  apply in_flat_map in H as [e [He Ht]].
  destruct (list_item label_text e) as [t|] eqn:E; simpl in Ht; [|contradiction].
  destruct Ht as [<-|[]]. exists e. split; [exact He|].
  apply list_item_entry. exact E.
Qed.

(** X18.  The entries [_extract_list_field] returns are distinct, trimmed
    and at least 3 characters long; each is the trimmed text of a node
    under the section of one of the labels, is not that label (in any
    case) and contains none of the words close, click, reset and button
    (in any case). *)
Theorem extract_list_field_entries (find_section : str -> option (list str))
  (labels : list str) :
  NoDup (_extract_list_field find_section labels)
  /\ Forall
       (fun text =>
          strip text = text
          /\ exists label_text descendants elem,
               In label_text labels
               /\ find_section label_text = Some descendants
               /\ In elem descendants
               /\ list_entry label_text elem text)
       (_extract_list_field find_section labels).
Proof.
  induction labels as [|label_text rest [IHn IHf]]; cbn [_extract_list_field].
  - split; constructor.
  - assert (Rest : NoDup (_extract_list_field find_section rest)
                   /\ Forall
                        (fun text =>
                           strip text = text
                           /\ exists l descendants elem,
                                In l (label_text :: rest)
                                /\ find_section l = Some descendants
                                /\ In elem descendants
                                /\ list_entry l elem text)
                        (_extract_list_field find_section rest)).
    { split; [exact IHn|]. rewrite Forall_forall in *. intros t Ht.
      destruct (IHf t Ht) as [S [l [ds [e [Hl H]]]]].
      split; [exact S|]. exists l, ds, e. split; [right; exact Hl | exact H]. }
    destruct (find_section label_text) as [descendants|] eqn:F; [|exact Rest].
    destruct (section_items label_text descendants) as [|x items] eqn:E;
      [exact Rest|].
    rewrite <- E. split.
    + rewrite section_items_eq. apply first_occurrences_NoDup.
    + apply Forall_forall. intros t Ht.
      destruct (section_items_entries _ _ _ Ht) as [e [He Le]].
      split.
      * destruct Le as [-> _]. apply strip_idem.
      * exists label_text, descendants, e.
        split; [left; reflexivity|]. auto.
Qed.

Lemma space_not_colon (c : ascii) : isspace c = true -> Ascii.eqb c ":"%char = false.
Proof.
  destruct c as [[|] [|] [|] [|] [|] [|] [|] [|]]; intros H;
    solve [reflexivity | discriminate H].
Qed.

Lemma lstrip_clean (ws body : str) :
  all_space ws ->
  match body with c :: _ => isspace c = false | [] => True end ->
  lstrip (ws ++ body) = body.
Proof.
  intros W B. rewrite lstrip_all_space by exact W.
  destruct body as [|c body]; [reflexivity|]. cbn [lstrip]. rewrite B. reflexivity.
Qed.

(** X19.  [_extract_abstract] removes one leading label [abstract], in any
    case, with or without a colon, and the white space after it: what is
    left is the body.  A text that does not begin with that label is
    returned as it is, and a page without an abstract element gives the
    empty string. *)
Theorem abstract_label_removed :
  (forall label_text colon ws body,
      lower label_text = lit "abstract" ->
      colon = [] \/ colon = [":"%char] ->
      all_space ws ->
      match body with
      | c :: _ => isspace c = false /\ Ascii.eqb c ":"%char = false
      | [] => True
      end ->
      _extract_abstract (Some (label_text ++ colon ++ ws ++ body)) = body)
  /\ (forall text,
         eqb (lower (firstn 8 text)) (lit "abstract") = false ->
         _extract_abstract (Some text) = text)
  /\ _extract_abstract None = [].
Proof.
  split; [|split; [|reflexivity]].
  - intros label_text colon ws body L C W B.
    assert (Len : length label_text = 8%nat).
    { apply (f_equal (@length ascii)) in L. unfold lower in L.
      rewrite length_map in L. exact L. }
    assert (B1 : match body with c :: _ => isspace c = false | [] => True end)
      by (destruct body; tauto).
    unfold _extract_abstract, remove_abstract_label.
    destruct label_text as [|c1 [|c2 [|c3 [|c4 [|c5 [|c6 [|c7 [|c8 [|c9 l]]]]]]]]];
      try discriminate Len.
    cbn [app firstn skipn]. rewrite L, eqb_refl.
    destruct C as [-> | ->]; cbn [app].
    + destruct ws as [|s ws].
      * cbn [app]. destruct body as [|c body]; [reflexivity|].
        destruct B as [B2 B3]. rewrite B3. cbn [lstrip]. rewrite B2. reflexivity.
      * cbn [app]. inversion W as [|s' ws' Hs Hws]; subst.
        rewrite (space_not_colon _ Hs).
        apply (@lstrip_clean (s :: ws) body); assumption.
    + cbn [Ascii.eqb]. change (Ascii.eqb ":" ":") with true. cbv iota.
      apply lstrip_clean; assumption.
  - intros text H. unfold _extract_abstract, remove_abstract_label.
    rewrite H. reflexivity.
Qed.

Lemma abstract_label_removed_witness :
  _extract_abstract
    (Some (lit "ABSTRACT" ++ [":"%char] ++ lit "  " ++ lit "A compound of formula I."))
  = lit "A compound of formula I.".
Proof.
  apply (proj1 abstract_label_removed).
  - reflexivity.
  - right. reflexivity.
  - repeat constructor.
  - split; reflexivity.
Defined.

(** ** The first crawler's result numbers and the English segment *)

Lemma contains_spec (needle hay : str) :
  contains needle hay = true <-> exists pre post, hay = pre ++ needle ++ post.
Proof.
  unfold contains. rewrite re_search_spec. split.
  - intros [pre [r [-> H]]]. apply startswith_app in H as [post ->].
    exists pre, post. reflexivity.
  - intros [pre [post ->]]. exists pre, (needle ++ post).
    split; [reflexivity|]. apply startswith_app. exists post. reflexivity.
Qed.

Lemma strip_In (s : str) (c : ascii) : In c (strip s) -> In c s.
Proof.
  intros H. destruct (strip_split s) as [a [b [E _]]]. rewrite E.
  apply in_or_app. right. apply in_or_app. left. exact H.
Qed.

Lemma fold_wo_number_step (elems : list (option str)) (acc : list str) :
  fold_left wo_number_step elems acc
  = acc ++ flat_map (wo_number_step []) elems.
Proof.
  revert acc; induction elems as [|e elems IH]; intros acc; simpl.
  - rewrite app_nil_r. reflexivity.
  - rewrite IH, app_assoc. f_equal.
    unfold wo_number_step. destruct e as [t|]; [|rewrite app_nil_r; reflexivity].
    destruct (truthy t && contains (lit "WO") t);
      [reflexivity | rewrite app_nil_r; reflexivity].
Qed.

(** X20.  Every number the first crawler reads off the result page still
    contains [WO], has no [/] and is trimmed.  The list follows the page
    element by element: nothing is merged, so a number shown twice is
    returned twice. *)
Theorem v1_wo_numbers :
  (forall elems id,
      In id (_extract_wo_numbers (Some elems)) ->
      contains (lit "WO") id = true /\ ~ In "/"%char id /\ strip id = id)
  /\ (forall a b,
         _extract_wo_numbers (Some (a ++ b))
         = _extract_wo_numbers (Some a) ++ _extract_wo_numbers (Some b))
  /\ _extract_wo_numbers None = [].
Proof.
  split; [|split; [|reflexivity]].
  - intros elems id. unfold _extract_wo_numbers.
    rewrite fold_wo_number_step. cbn [app]. intros H.
    apply in_flat_map in H as [e [_ H]]. unfold wo_number_step in H.
    destruct e as [t|]; [|contradiction].
    destruct (truthy t && contains (lit "WO") t) eqn:C; [|contradiction].
    destruct H as [<-|[]]. apply andb_true_iff in C as [_ C].
    split; [|split].
    + apply contains_spec in C as [pre [post ->]].
      unfold remove_char. rewrite filter_app. cbn [lit list_ascii_of_string app filter].
      change (negb (Ascii.eqb "W" "/")) with true.
      change (negb (Ascii.eqb "O" "/")) with true. cbv iota.
      destruct (@strip_keeps_pair
                  (filter (fun c => negb (Ascii.eqb c "/")) pre)
                  (filter (fun c => negb (Ascii.eqb c "/")) post)
                  "W"%char "O"%char eq_refl eq_refl) as [y [z ->]].
      apply contains_spec. exists y, z. reflexivity.
    + intros H. apply strip_In in H. unfold remove_char in H.
      apply filter_In in H as [_ H]. discriminate H.
    + apply strip_idem.
  - intros a b. unfold _extract_wo_numbers.
    rewrite !fold_wo_number_step. cbn [app]. apply flat_map_app.
Qed.

Lemma re_delete_all_space (a : str) : all_space a -> re_delete separator a = [].
Proof.
  induction 1 as [|c a C _ IH]; [reflexivity|]. unfold re_delete in *.
  cbn [filter]. unfold separator at 1. rewrite C, orb_true_r. simpl. exact IH.
Qed.

Lemma re_delete_strip (s : str) :
  re_delete separator (strip s) = re_delete separator s.
Proof.
  destruct (strip_split s) as [a [b [E [A B]]]]. rewrite E at 2.
  unfold re_delete. rewrite !filter_app.
  fold (re_delete separator a). fold (re_delete separator b).
  rewrite (re_delete_all_space A), (re_delete_all_space B), app_nil_r.
  reflexivity.
Qed.

Lemma re_delete_after_slash (s : str) :
  re_delete separator (remove_char "/"%char s) = re_delete separator s.
Proof.
  unfold re_delete, remove_char. rewrite filter_twice. apply filter_ext.
  intros c. unfold separator.
  destruct (Ascii.eqb c "/"); cbn [negb orb andb];
    rewrite ?andb_true_r, ?andb_false_r; reflexivity.
Qed.

(** X21.  The first and the tiered crawler agree on the identifier of a
    listed text: when the text contains [WO] and the first crawler's
    number for it (the text without [/], trimmed) is normalized, the
    tiered crawler's lister derives the same identifier from that text,
    whatever the link of the element. *)
Theorem normalizers_agree (t : str) (h : option str) :
  contains (lit "WO") t = true ->
  normalized (strip (remove_char "/"%char t)) ->
  wo_number_step [] (Some t) = [strip (remove_char "/"%char t)]
  /\ wo_candidate {| get_text := t; href := h |}
     = Some (strip (remove_char "/"%char t)).
Proof.
  intros C N.
  assert (Tt : truthy t = true).
  { apply contains_spec in C as [pre [post ->]]. destruct pre; reflexivity. }
  split.
  - unfold wo_number_step. rewrite Tt, C. reflexivity.
  - assert (D : re_delete separator (strip t) = strip (remove_char "/"%char t)).
    { rewrite re_delete_strip, <- re_delete_after_slash, <- re_delete_strip.
      unfold re_delete. apply filter_all. intros c Hc.
      destruct N as [S _]. rewrite (S c Hc). reflexivity. }
    destruct N as [_ W].
    assert (Ts : truthy (strip t) = true).
    { destruct (strip t) eqn:E; [|reflexivity].
      simpl in D. rewrite <- D in W. discriminate W. }
    unfold wo_candidate. cbn [get_text href]. rewrite Ts. cbn [negb andb].
    assert (Tc : truthy (strip (remove_char "/"%char t)) = true).
    { apply startswith_app in W as [r ->]. reflexivity. }
    destruct h; rewrite D, Tc, W; reflexivity.
Qed.

Lemma normalizers_agree_witness :
  wo_number_step [] (Some (lit " WO/2022/049075 "))
  = [strip (remove_char "/"%char (lit " WO/2022/049075 "))]
  /\ wo_candidate {| get_text := lit " WO/2022/049075 "; href := None |}
     = Some (strip (remove_char "/"%char (lit " WO/2022/049075 "))).
Proof.
  apply normalizers_agree; [reflexivity|].
  split; [|reflexivity].
  intros c Hc. vm_compute in Hc.
  repeat (destruct Hc as [<- | Hc]; [reflexivity|]). contradiction.
Defined.

Lemma en_pattern_miss (c : ascii) (t : str) :
  Ascii.eqb c "("%char = false -> en_pattern_at (c :: t) = None.
Proof.
  intros H. unfold en_pattern_at. cbn [lit list_ascii_of_string startswith].
  rewrite H. reflexivity.
Qed.

Lemma re_find_skip (pre x : str) :
  no_paren pre -> x <> [] ->
  re_find en_pattern_at (pre ++ x) = re_find en_pattern_at x.
Proof.
  intros P X. induction P as [|c pre C _ IH]; [reflexivity|].
  cbn [app re_find]. rewrite (@en_pattern_miss c (pre ++ x) C). exact IH.
Qed.

Lemma re_find_head (m : str -> option str) (c : ascii) (t g : str) :
  m (c :: t) = Some g -> re_find m (c :: t) = Some g.
Proof. intros H. cbn [re_find]. rewrite H. reflexivity. Qed.

Lemma lazy_to_marker (e rest : str) :
  no_paren e -> lazy_until_fr (e ++ lit "(FR)" ++ rest) = e.
Proof.
  induction 1 as [|c e C _ IH]; [reflexivity|].
  assert (E : eqb (c :: e ++ lit "(FR)" ++ rest) [ascii_of_nat 10] = false).
  { cbn [eqb]. destruct (e ++ lit "(FR)" ++ rest) eqn:Q; [|apply andb_false_r].
    apply app_eq_nil in Q as [_ Q]. discriminate Q. }
  cbn [app lazy_until_fr]. rewrite E.
  cbn [lit list_ascii_of_string startswith]. rewrite C. cbn [andb].
  f_equal. exact IH.
Qed.

Lemma lazy_to_end (e : str) :
  no_paren e -> (forall x y, e = x ++ [y] -> isspace y = false) ->
  lazy_until_fr e = e.
Proof.
  induction 1 as [|c e C _ IH]; intros L; [reflexivity|].
  cbn [lazy_until_fr]. cbn [lit list_ascii_of_string startswith].
  rewrite C. cbn [andb].
  assert (E : eqb (c :: e) [ascii_of_nat 10] = false).
  { cbn [eqb]. destruct e; [|apply andb_false_r].
    rewrite andb_true_r. specialize (L [] c eq_refl).
    destruct (Ascii.eqb c (ascii_of_nat 10)) eqn:N; [|reflexivity].
    apply Ascii.eqb_eq in N. subst c. discriminate L. }
  rewrite E. f_equal. apply IH. intros x y ->. apply (L (c :: x) y). reflexivity.
Qed.

Lemma clean_ends_trimmed (s : str) : clean_ends s -> strip s = s.
Proof.
  intros [H T]. unfold strip, rstrip.
  assert (L : forall u : str,
             match u with c :: _ => isspace c = false | [] => False end ->
             lstrip u = u).
  { intros [|c u] Hu; [contradiction|]. cbn [lstrip]. rewrite Hu. reflexivity. }
  rewrite (L s H), (L (rev s) T). apply rev_involutive.
Qed.

Lemma clean_ends_last (c : ascii) (e x : str) (y : ascii) :
  clean_ends (c :: e) -> e = x ++ [y] -> isspace y = false.
Proof.
  intros [_ T] ->. change (c :: x ++ [y]) with ((c :: x) ++ [y]) in T.
  rewrite rev_app_distr in T. exact T.
Qed.

(** X22.  Reading the English segment of a bilingual block gives back the
    English text: for a block made of a label, the marker [(EN)], white
    space, an English text and then either the marker [(FR)] with anything
    after it or nothing, the segment is that English text, provided the
    text is not empty, has no white space at its ends, and neither it nor
    the label has an opening parenthesis. *)
Theorem english_segment_round_trip (label ws en rest : str) :
  no_paren label -> all_space ws -> clean_ends en -> no_paren en ->
  english_segment (label ++ lit "(EN)" ++ ws ++ en ++ lit "(FR)" ++ rest) = Some en
  /\ english_segment (label ++ lit "(EN)" ++ ws ++ en) = Some en.
Proof.
  intros P W C N.
  destruct en as [|c e]; [destruct C as [[] _]|].
  pose proof (clean_ends_trimmed C) as T.
  assert (Hc : isspace c = false) by (destruct C as [H _]; exact H).
  inversion N as [|c' e' Nc Ne]; subst.
  assert (A : forall tail g,
             lazy_until_fr (e ++ tail) = g ->
             english_segment (label ++ lit "(EN)" ++ ws ++ (c :: e) ++ tail)
             = Some (strip (c :: g))).
  { intros tail g G. unfold english_segment.
    rewrite re_find_skip; [|exact P | discriminate].
    cbn [lit list_ascii_of_string app].
    erewrite re_find_head; [reflexivity|].
    unfold en_pattern_at. cbn [lit list_ascii_of_string startswith skipn].
    rewrite !Ascii.eqb_refl. cbn [andb].
    rewrite (@lstrip_clean ws (c :: e ++ tail) W Hc).
    rewrite G. reflexivity. }
  split.
  - rewrite (A (lit "(FR)" ++ rest) e (@lazy_to_marker e rest Ne)). rewrite T.
    reflexivity.
  - rewrite <- (app_nil_r (c :: e)) at 1.
    rewrite (A [] e).
    + rewrite T. reflexivity.
    + rewrite app_nil_r. apply lazy_to_end; [exact Ne|].
      intros x y E. exact (@clean_ends_last c e x y C E).
Qed.

Lemma english_segment_round_trip_witness :
  english_segment
    (lit "Title" ++ lit "(EN)" ++ lit " " ++ lit "CRYSTALLINE FORMS"
     ++ lit "(FR)" ++ lit " FORMES CRISTALLINES")
  = Some (lit "CRYSTALLINE FORMS")
  /\ english_segment
       (lit "Title" ++ lit "(EN)" ++ lit " " ++ lit "CRYSTALLINE FORMS")
     = Some (lit "CRYSTALLINE FORMS").
Proof.
  apply english_segment_round_trip.
  - repeat constructor.
  - repeat constructor.
  - split; reflexivity.
  - repeat constructor.
Defined.

(** ** The query *)

Lemma join_starts (sep p : str) (rest : list str) :
  startswith (join sep (p :: rest)) p = true.
Proof.
  apply startswith_app. cbn [join]. destruct rest.
  - exists []. rewrite app_nil_r. reflexivity.
  - exists (sep ++ join sep (s :: rest)). reflexivity.
Qed.

(** X23.  The query of [search_wipo_patents] begins with the molecule name
    and joins at most 7 terms: the name, at most the first 5 development
    codes and the CAS number when there is one; development codes after
    the fifth do not change it, and with no codes and no CAS number it is
    the molecule name itself. *)
Theorem query_terms (molecule : str) (dev_codes : option (list str))
  (cas : option str) :
  (1 <= length (query_parts molecule dev_codes cas) <= 7)%nat
  /\ startswith (build_query molecule dev_codes cas) molecule = true
  /\ (forall codes,
         build_query molecule (Some codes) cas
         = build_query molecule (Some (firstn 5 codes)) cas)
  /\ build_query molecule None None = molecule
  /\ build_query molecule (Some []) (Some []) = molecule.
Proof.
  split; [|split; [|split; [|split; reflexivity]]].
  - unfold query_parts.
    assert (L : forall codes : list str, (length (firstn 5 codes) <= 5)%nat).
    { intros codes. rewrite length_firstn. lia. }
    destruct dev_codes as [[|x codes]|]; destruct cas as [k|];
      try destruct (truthy k);
      rewrite ?length_app; try pose proof (L (x :: codes));
      cbn [length] in *; lia.
  - unfold build_query, query_parts.
    destruct dev_codes as [[|x codes]|]; destruct cas as [k|];
      try destruct (truthy k); cbn [app]; apply join_starts.
  - intros codes. unfold build_query, query_parts.
    destruct codes as [|x codes]; [reflexivity|].
    rewrite firstn_firstn. reflexivity.
Qed.

(** ** More on the claims *)

Lemma digit_code (c : ascii) : isdigit c = true -> (48 <= nat_of_ascii c)%nat.
Proof.
  unfold isdigit, between. intros H. apply andb_true_iff in H as [H _].
  apply Nat.leb_le in H. exact H.
Qed.

Lemma int_of_digits_nonneg (ds : str) (n : Z) :
  Forall (fun c => isdigit c = true) ds ->
  int_of_digits ds = Some n -> (0 <= n)%Z.
Proof.
  unfold int_of_digits. intros H.
  destruct (int_max_str_digits <? length ds)%nat; [discriminate|].
  intros E. assert (E' : fold_left
                           (fun n c => (10 * n + (Z.of_nat (nat_of_ascii c) - 48))%Z)
                           ds 0%Z = n) by congruence.
  rewrite <- E'. clear E E'.
  assert (G : forall n, (0 <= n)%Z ->
              (0 <= fold_left (fun n c => 10 * n + (Z.of_nat (nat_of_ascii c) - 48)) ds n)%Z).
  { induction H as [|c ds C _ IH]; intros m Hm; [exact Hm|].
    cbn [fold_left]. apply IH. apply digit_code in C. lia. }
  apply G. lia.
Qed.

(** X24.  Every claim the extractor returns has a number that is not
    negative and a text that is trimmed, and there are at most as many
    claims as elements. *)
Theorem extracted_claims_wellformed (elems : list (option str)) :
  Forall (fun c => (0 <= claim_number c)%Z /\ strip (claim_text c) = claim_text c)
    (_extract_claims (Some elems))
  /\ (length (_extract_claims (Some elems)) <= length elems)%nat.
Proof.
  unfold _extract_claims. rewrite fold_claim_step. cbn [app].
  induction elems as [|e elems [IH1 IH2]]; [split; [constructor | simpl; lia]|].
  cbn [flat_map].
  assert (S : (claim_step [] e = []
               \/ exists digits n rest ty,
                    Forall (fun c => isdigit c = true) digits
                    /\ int_of_digits digits = Some n
                    /\ claim_step [] e
                       = [{| claim_number := n;
                             claim_type := ty;
                             claim_text := strip rest |}])).
  { unfold claim_step. destruct e as [text|]; [|left; reflexivity].
    destruct (number_prefix text) as [[digits after]|] eqn:E; [|left; reflexivity].
    apply number_prefix_inv in E as [rest [[_ [_ D]] _]].
    destruct (int_of_digits digits) as [n|] eqn:I; [|left; reflexivity].
    right. exists digits, n. eexists. eexists.
    split; [exact D|]. split; [exact I | reflexivity]. }
  destruct S as [-> | [digits [n [rest [ty [D [I ->]]]]]]].
  - cbn [app length]. split; [exact IH1 | lia].
  - cbn [app length]. split; [|lia]. constructor; [|exact IH1].
    cbn [claim_number claim_text]. split.
    + exact (@int_of_digits_nonneg digits n D I).
    + apply strip_idem.
Qed.

(** ** The tabs of the first crawler *)

Lemma fold_isr_step (rows : list (option (list (option str))))
  (acc : list citation) :
  fold_left isr_step rows acc = acc ++ flat_map (isr_step []) rows.
Proof.
  revert acc; induction rows as [|r rows IH]; intros acc; simpl.
  - rewrite app_nil_r. reflexivity.
  - rewrite IH, app_assoc. f_equal.
    destruct r as [[|[c0|] [|[c1|] cells]]|]; cbn [isr_step app];
      rewrite ?app_nil_r; reflexivity.
Qed.

(** X25.  The description the first crawler keeps is never the empty
    string: it is the first 5000 characters of the container's text, the
    whole text when that is no longer, and there is none when the container
    is missing or its text is empty. *)
Theorem description_summary (desc_container : option str) :
  match _extract_description desc_container with
  | Some d =>
      d <> [] /\ (length d <= 5000)%nat
      /\ exists full_text,
           desc_container = Some full_text /\ d = firstn 5000 full_text
           /\ ((length full_text <= 5000)%nat -> d = full_text)
  | None => desc_container = None \/ desc_container = Some []
  end.
Proof.
  destruct desc_container as [[|c t]|]; cbn [_extract_description truthy].
  - right. reflexivity.
  - split; [|split].
    + change 5000%nat with (S 4999). cbn [firstn]. discriminate.
    + rewrite length_firstn. lia.
    + exists (c :: t). split; [reflexivity|]. split; [reflexivity|].
      intros L. apply firstn_all2. exact L.
  - left. reflexivity.
Qed.

(** X26.  The citations of the search report follow the rows of the table:
    a row of at least two readable cells gives one citation, the trimmed
    texts of its first two cells, and any other row gives none; so there
    are at most as many citations as rows, every one has a trimmed
    category and document, and a table of readable rows gives one citation
    per row, in order.  When the rows cannot be queried there is none. *)
Theorem isr_citations :
  _extract_isr None = []
  /\ (forall rows,
         (length (_extract_isr (Some rows)) <= length rows)%nat
         /\ Forall (fun c => strip (category c) = category c
                             /\ strip (document c) = document c)
              (_extract_isr (Some rows)))
  /\ (forall rows a b,
         _extract_isr (Some (rows ++ [Some (Some a :: Some b :: [])]))
         = _extract_isr (Some rows)
             ++ [{| category := strip a; document := strip b |}])
  /\ (forall table : list (str * str * list (option str)),
         _extract_isr
           (Some (map (fun r => Some (Some (fst (fst r)) :: Some (snd (fst r))
                                        :: snd r)) table))
         = map (fun r => {| category := strip (fst (fst r));
                            document := strip (snd (fst r)) |}) table).
Proof.
  split; [reflexivity|]. split; [|split].
  - intros rows. unfold _extract_isr. rewrite fold_isr_step. cbn [app].
    induction rows as [|r rows [IH1 IH2]]; [split; [simpl; lia | constructor]|].
    cbn [flat_map length]. rewrite length_app.
    destruct r as [[|[c0|] [|[c1|] cells]]|]; cbn [isr_step app length];
      (split; [lia|]); try exact IH2.
    constructor; [|exact IH2]. cbn [category document].
    split; apply strip_idem.
  - intros rows a b. unfold _extract_isr.
    rewrite fold_left_app. reflexivity.
  - intros table. unfold _extract_isr. rewrite fold_isr_step. cbn [app].
    induction table as [|[[a b] cells] table IH]; [reflexivity|].
    cbn [map flat_map isr_step fst snd app]. rewrite IH. reflexivity.
Qed.
